(** * Credential verification cache, pooled store connector and secret
      provider of the code-to-image Lambda: a shallow embedding.

    Sources embedded here:
    - the token verification module, required as [./db/tokenVerifier]
      ([verifyToken], [queryDatabase], the token cache);
    - the Lambda handler that requires it, up to the end of its token check;
    - the connection pool manager, required as [./connectionPool]
      ([getPool], [initializePool]);
    - the Secrets Manager integration, required as [../utils/secretsManager]
      ([getDatabaseCredentials]).

    Conventions.  JavaScript values are a small tagged union.  An exception
    is the [Throws] case of [Outcome].  Module-level variables are fields of
    an explicit state record that every operation threads through.
    [Date.now()] reads a clock kept in that state; the clock moves where the
    verifier suspends (the store query) and between invocations.  The
    asynchronous functions of the pool manager are cut at their [await]s:
    an event runs one continuation up to its next suspension, as the event
    loop does, and a schedule is a list of events. *)

From Stdlib Require Import ZArith String List Lia.
From stdpp Require Import base option gmap strings list fin_maps.

Local Open Scope string_scope.
Local Open Scope Z_scope.

(* ===================================================================== *)
(** ** JavaScript values and completions                                  *)
(* ===================================================================== *)

(** The values that reach this code come out of [JSON.parse] (request body,
    secret payload) or are [undefined] (a property that is not there).  Arrays
    and objects only matter through their truthiness and their [typeof], so
    one constructor stands for all of them.  Numbers are integers here; a
    fractional JSON number is truthy like any non-zero integer. *)
Inductive JsValue : Type :=
  | VUndefined
  | VNull
  | VBool (b : bool)
  | VNum (n : Z)
  | VStr (s : string)
  | VObject.

(** [!!v] of JavaScript. *)
Definition truthy (v : JsValue) : bool :=
  match v with
  | VUndefined | VNull => false
  | VBool b => b
  | VNum n => negb (n =? 0)
  | VStr s => negb (String.eqb s "")
  | VObject => true
  end.

(** [typeof v === 'string'] *)
Definition is_string (v : JsValue) : bool :=
  match v with
  | VStr _ => true
  | _ => false
  end.

(** [!v] for an environment variable: unset, or set to the empty string. *)
Definition env_unset (v : option string) : bool :=
  match v with
  | None => true
  | Some n => String.eqb n ""
  end.

(** A call either returns or throws [new Error(msg)]. *)
Inductive Outcome (A : Type) : Type :=
  | Returns (a : A)
  | Throws (msg : string).
Arguments Returns {A} a.
Arguments Throws {A} msg.

(* ===================================================================== *)
(** ** db/tokenVerifier.js                                                *)
(* ===================================================================== *)

Module TokenVerifier.

(** One row of [api_tokens] as the query selects it.  [expires_at] and
    [is_active] are nullable columns: [None] is SQL NULL.  The driver hands
    timestamps over as [Date] objects, which are truthy whatever their time
    value; they are kept as milliseconds since the epoch. *)
Record TokenRecord : Type := {
  user_id : string;
  expires_at : option Z;
  is_active : option bool;
  created_at : Z
}.

(** The object [verifyToken] resolves with.  A field that the source leaves
    out of the object literal is [None], as is a [null]. *)
Record VerifyResult : Type := {
  isValid : bool;
  userId : option string;
  error : option string;
  expiresAt : option Z;
  isActive : option bool;
  createdAt : option Z
}.

(** [{ result, cachedAt }] *)
Record CacheEntry : Type := {
  result : VerifyResult;
  cachedAt : Z
}.

(** Module-level state of the verifier ([tokenCache]) together with what the
    statements about it need to observe: the wall clock in milliseconds and
    the number of store queries issued so far. *)
Record World : Type := {
  tokenCache : gmap string CacheEntry;
  clock : Z;
  storeQueries : nat
}.

(** The backing store as [query] of connectionPool.js shows it to the
    verifier: for a token, the rows of the SELECT or a rejection (the pool
    could not be obtained, or the statement failed), after [latency]
    milliseconds. *)
Record Store : Type := {
  rows_for : string -> Outcome (list TokenRecord);
  latency : Z
}.

(** *** A state monad over [World] *)

Definition M (A : Type) : Type := World -> A * World.

Definition ret {A} (a : A) : M A := fun w => (a, w).
Definition bind {A B} (m : M A) (k : A -> M B) : M B :=
  fun w => let (a, w') := m w in k a w'.

Notation "x <- m ;; k" := (bind m (fun x => k))
  (at level 100, m at next level, right associativity).
Notation "m ;;; k" := (bind m (fun _ => k))
  (at level 100, right associativity).

(** [Date.now()] and [new Date()] *)
Definition Date_now : M Z := fun w => (clock w, w).

(** [tokenCache.get(token)] *)
Definition cache_get (token : string) : M (option CacheEntry) :=
  fun w => (tokenCache w !! token, w).

(** [tokenCache.set(token, entry)] *)
Definition cache_set (token : string) (e : CacheEntry) : M unit :=
  fun w => (tt, {| tokenCache := <[token := e]> (tokenCache w);
                   clock := clock w;
                   storeQueries := storeQueries w |}).

(** [tokenCache.delete(token)] *)
Definition cache_delete (token : string) : M unit :=
  fun w => (tt, {| tokenCache := delete token (tokenCache w);
                   clock := clock w;
                   storeQueries := storeQueries w |}).

(** [await query(sql, [token])]: one query is issued and the caller resumes
    [latency] milliseconds later with the rows or with the rejection. *)
Definition query (st : Store) (token : string) : M (Outcome (list TokenRecord)) :=
  fun w => (rows_for st token,
            {| tokenCache := tokenCache w;
               clock := clock w + latency st;
               storeQueries := S (storeQueries w) |}).

(** *** The results the source builds *)

Definition tokenRequired : VerifyResult :=
  {| isValid := false; userId := None; error := Some "Token is required";
     expiresAt := None; isActive := None; createdAt := None |}.

Definition tokenNotFound : VerifyResult :=
  {| isValid := false; userId := None; error := Some "Token not found";
     expiresAt := None; isActive := None; createdAt := None |}.

Definition tokenInactive (r : TokenRecord) : VerifyResult :=
  {| isValid := false; userId := Some (user_id r);
     error := Some "Token is inactive";
     expiresAt := None; isActive := None; createdAt := None |}.

Definition tokenExpired (r : TokenRecord) : VerifyResult :=
  {| isValid := false; userId := Some (user_id r);
     error := Some "Token has expired";
     expiresAt := expires_at r; isActive := None; createdAt := None |}.

Definition tokenValid (r : TokenRecord) : VerifyResult :=
  {| isValid := true; userId := Some (user_id r); error := None;
     expiresAt := expires_at r; isActive := is_active r;
     createdAt := Some (created_at r) |}.

Definition verificationFailed : VerifyResult :=
  {| isValid := false; userId := None;
     error := Some "Token verification failed";
     expiresAt := None; isActive := None; createdAt := None |}.

(** [tokenRecord.is_active === false] *)
Definition is_active_false (r : TokenRecord) : bool :=
  match is_active r with
  | Some false => true
  | _ => false
  end.

(** [tokenRecord.expires_at && new Date(tokenRecord.expires_at) < now] *)
Definition expired_at (r : TokenRecord) (now : Z) : bool :=
  match expires_at r with
  | Some t => t <? now
  | None => false
  end.

(** The decision [queryDatabase] takes on the rows it got back. *)
Definition judge (rows : list TokenRecord) (now : Z) : VerifyResult :=
  match rows with
  | [] => tokenNotFound
  | tokenRecord :: _ =>
      if is_active_false tokenRecord then tokenInactive tokenRecord
      else if expired_at tokenRecord now then tokenExpired tokenRecord
      else tokenValid tokenRecord
  end.

(** [queryDatabase(token)]: the [catch] logs and rethrows. *)
Definition queryDatabase (st : Store) (token : string) : M (Outcome VerifyResult) :=
  res <- query st token ;;
  match res with
  | Throws e => ret (Throws e)
  | Returns rows =>
      now <- Date_now ;;
      ret (Returns (judge rows now))
  end.

Section Verifier.

(** [CACHE_TTL], in milliseconds: [parseInt(TOKEN_CACHE_TTL || '300') * 1000]. *)
Variable CACHE_TTL : Z.

(** The cache check that opens [verifyToken]: [Some r] when the source
    returns [r] from inside the [if (cached)] block, [None] when control
    reaches the store query. *)
Definition checkCache (token : string) : M (option VerifyResult) :=
  cached <- cache_get token ;;
  match cached with
  | None => ret None
  | Some c =>
      now <- Date_now ;;
      let cacheAge := now - cachedAt c in
      if cacheAge <? CACHE_TTL then
        match isValid (result c), expiresAt (result c) with
        | true, Some e =>
            now' <- Date_now ;;
            if e <? now' then (cache_delete token ;;; ret None)
            else ret (Some (result c))
        | _, _ => ret (Some (result c))
        end
      else (cache_delete token ;;; ret None)
  end.

(** The [try] block that closes [verifyToken]. *)
Definition queryAndCache (st : Store) (token : string) : M (Outcome VerifyResult) :=
  res <- queryDatabase st token ;;
  match res with
  | Returns r =>
      if isValid r then
        now <- Date_now ;;
        cache_set token {| result := r; cachedAt := now |} ;;;
        ret (Returns r)
      else ret (Returns r)
  | Throws _ => ret (Returns verificationFailed)
  end.

(** [verifyToken(token)].  Past the first test the token is a non-empty
    string, so the last case of the [match] is never reached. *)
Definition verifyToken (st : Store) (token : JsValue) : M (Outcome VerifyResult) :=
  if negb (truthy token) || negb (is_string token) then
    ret (Returns tokenRequired)
  else
    match token with
    | VStr s =>
        hit <- checkCache s ;;
        match hit with
        | Some r => ret (Returns r)
        | None => queryAndCache st s
        end
    | _ => ret (Returns tokenRequired)
    end.

(** *** The token check of the handler (index.js, store-backed mode) *)

(** A JSON error response: status code and the two fields the bodies use. *)
Record Response : Type := {
  statusCode : Z;
  body_error : string;
  body_message : option string
}.

(** What the handler does with a request before rendering starts. *)
Inductive AuthStep : Type :=
  | Respond (r : Response)
  | Proceed (v : VerifyResult).

(** [tokenVerification.error || 'Invalid or missing API token'] *)
Definition errorMessage (v : VerifyResult) : string :=
  match error v with
  | Some e => if String.eqb e "" then "Invalid or missing API token" else e
  | None => "Invalid or missing API token"
  end.

(** [exports.handler] from the destructuring of the body to the end of the
    token check, [token] being [body.token].  Nothing in this stretch
    throws past its own [try], so the outer [catch] (status 500) is left
    out. *)
Definition handler (st : Store) (token : JsValue) : M AuthStep :=
  if negb (truthy token) then
    ret (Respond {| statusCode := 401; body_error := "Missing API token";
                    body_message := None |})
  else
    tv <- verifyToken st token ;;
    match tv with
    | Throws _ =>
        ret (Respond {| statusCode := 503;
                        body_error := "Service temporarily unavailable";
                        body_message :=
                          Some "Unable to verify token. Please try again later." |})
    | Returns tokenVerification =>
        if negb (isValid tokenVerification) then
          ret (Respond {| statusCode := 401;
                          body_error := errorMessage tokenVerification;
                          body_message := None |})
        else ret (Proceed tokenVerification)
    end.

(** [clearCache()] *)
Definition clearCache : M unit :=
  fun w => (tt, {| tokenCache := ∅; clock := clock w;
                   storeQueries := storeQueries w |}).

(** The object [getCacheStats()] returns. *)
Record CacheStats : Type := {
  stats_size : nat;
  stats_ttl : Z
}.

(** [getCacheStats()] *)
Definition getCacheStats : M CacheStats :=
  fun w => ({| stats_size := size (tokenCache w); stats_ttl := CACHE_TTL |}, w).

(** Time passing between two invocations: [dt] milliseconds later. *)
Definition elapse (dt : Z) (w : World) : World :=
  {| tokenCache := tokenCache w; clock := clock w + dt;
     storeQueries := storeQueries w |}.

(** The world in which a store query issued from [w] resumes. *)
Definition queried (st : Store) (w : World) : World :=
  {| tokenCache := tokenCache w; clock := clock w + latency st;
     storeQueries := S (storeQueries w) |}.

(** The world after [tokenCache.delete(token)]. *)
Definition evicted (token : string) (w : World) : World :=
  {| tokenCache := delete token (tokenCache w); clock := clock w;
     storeQueries := storeQueries w |}.

(** The cache holds successful verifications only. *)
Definition only_valid_cached (w : World) : Prop :=
  forall k c, tokenCache w !! k = Some c -> isValid (result c) = true.

(** Every cached result is the valid result built from some record, and so
    carries that record's own [expires_at]. *)
Definition cached_from_records (w : World) : Prop :=
  forall k c, tokenCache w !! k = Some c ->
              exists r, result c = tokenValid r.

End Verifier.

End TokenVerifier.

(* ===================================================================== *)
(** ** utils/secretsManager.js                                            *)
(* ===================================================================== *)

Module SecretsManager.

(** The object [getDatabaseCredentials] memoizes and returns. *)
Record Credentials : Type := {
  host : JsValue;
  port : JsValue;
  database : JsValue;
  user : JsValue;
  password : JsValue
}.

(** [secret[field]]: [undefined] when the parsed object has no such key. *)
Definition field (secret : gmap string JsValue) (f : string) : JsValue :=
  default VUndefined (secret !! f).

Definition requiredFields : list string :=
  ["host"; "port"; "database"; "username"; "password"].

(** [requiredFields.filter((field) => !secret[field])] *)
Definition missingFields (secret : gmap string JsValue) : list string :=
  List.filter (fun f => negb (truthy (field secret f))) requiredFields.

(** [Array.prototype.join] *)
Fixpoint join (sep : string) (l : list string) : string :=
  match l with
  | [] => ""
  | [x] => x
  | x :: rest => String.append x (String.append sep (join sep rest))
  end.

(** [a || b] *)
Definition or_else (a b : JsValue) : JsValue := if truthy a then a else b.

(** The validation and the construction of the credentials object, as they
    stand inside the [try] block. *)
Definition validate (secret : gmap string JsValue) : Outcome Credentials :=
  let missing := missingFields secret in
  if (0 <? length missing)%nat then
    Throws (String.append "Secret is missing required fields: "
                          (join ", " missing))
  else
    Returns {| host := field secret "host";
               port := or_else (field secret "port") (VNum 5432);
               database := field secret "database";
               user := field secret "username";
               password := field secret "password" |}.

(** What [await client.send(command)] followed by [JSON.parse] can give.
    [Parsed] carries a JSON object; of the other JSON values, [null] makes
    [secret[field]] throw and so behaves like [NotJson], and a number, a
    string or an array has none of the fields, like the empty object. *)
Inductive SecretReply : Type :=
  | SendRejected (msg : string)
  | NotJson (msg : string)
  | Parsed (secret : gmap string JsValue).

(** The [catch] block: every failure inside the [try] is rethrown wrapped. *)
Definition wrapped (msg : string) : string :=
  String.append "Failed to retrieve database credentials: " msg.

(** The [try] and [catch] of [getDatabaseCredentials] from the point where
    [client.send] settles, the assignment to [cachedCredentials] apart:
    parse, validate, build the object. *)
Definition resolve (reply : SecretReply) : Outcome Credentials :=
  match reply with
  | SendRejected msg => Throws (wrapped msg)
  | NotJson msg => Throws (wrapped msg)
  | Parsed secret =>
      match validate secret with
      | Returns c => Returns c
      | Throws msg => Throws (wrapped msg)
      end
  end.

(** The module-level [cachedCredentials], and the number of calls of
    [client.send] so far.  ([secretsClient] only memoizes the client object
    and is left out.) *)
Record State : Type := {
  cachedCredentials : option Credentials;
  secretsRequested : nat
}.

(** How a call of [getDatabaseCredentials] stands at its first suspension. *)
Inductive Started : Type :=
  | Memoized (c : Credentials)   (* returned [cachedCredentials] *)
  | Refused (msg : string)       (* threw before the [try] *)
  | SendPending.                 (* [client.send(command)] is in flight *)

(** [getDatabaseCredentials(secretName)] up to [await client.send(command)]. *)
Definition getDatabaseCredentials_start (secretName : option string)
           (m : State) : Started * State :=
  match cachedCredentials m with
  | Some c => (Memoized c, m)
  | None =>
      if env_unset secretName then
        (Refused "DB_SECRET_NAME environment variable is not set", m)
      else
        (SendPending,
         {| cachedCredentials := cachedCredentials m;
            secretsRequested := S (secretsRequested m) |})
  end.

(** [getDatabaseCredentials] from the point where [client.send] settles. *)
Definition getDatabaseCredentials_resume (reply : SecretReply) (m : State)
  : Outcome Credentials * State :=
  match resolve reply with
  | Returns c =>
      (Returns c,
       {| cachedCredentials := Some c;
          secretsRequested := secretsRequested m |})
  | Throws msg => (Throws msg, m)
  end.

End SecretsManager.

(* ===================================================================== *)
(** ** db/connectionPool.js                                               *)
(* ===================================================================== *)

Module ConnectionPool.

Import SecretsManager.

(** Pools are numbered in the order [new Pool(...)] creates them, promises
    in the order [initializePool()] is called. *)
Definition PoolId : Type := nat.
Definition PromiseId : Type := nat.

Inductive Settled : Type :=
  | Fulfilled (p : PoolId)
  | Rejected (msg : string).

(** Where a call of [initializePool] is suspended.  In
    [AwaitCredentials memo], [memo] is the memoized object when
    [getDatabaseCredentials] returned it, and [None] while [client.send] is
    in flight. *)
Inductive Phase : Type :=
  | AwaitCredentials (memo : option Credentials)
  | AwaitConnect (newPool : PoolId)
  | Settling (r : Settled).
    (* the promise has settled, [await initPromise] in getPool has not resumed *)

(** The module-level variables of connectionPool.js ([pool],
    [isInitializing], [initPromise]), the state of secretsManager.js, the
    suspended calls of [initializePool] keyed by the promise each one
    returned, and two counters. *)
Record State : Type := {
  pool : option PoolId;
  isInitializing : bool;
  initPromise : option PromiseId;
  secrets : SecretsManager.State;
  inFlight : gmap nat Phase;
  nextPromise : PromiseId;       (* calls of [initializePool] so far *)
  poolsConstructed : nat         (* [new Pool(...)] so far *)
}.

Definition set_pool (v : option PoolId) (s : State) : State :=
  {| pool := v; isInitializing := isInitializing s;
     initPromise := initPromise s; secrets := secrets s;
     inFlight := inFlight s; nextPromise := nextPromise s;
     poolsConstructed := poolsConstructed s |}.

Definition set_guard (b : bool) (p : option PromiseId) (s : State) : State :=
  {| pool := pool s; isInitializing := b; initPromise := p;
     secrets := secrets s;
     inFlight := inFlight s; nextPromise := nextPromise s;
     poolsConstructed := poolsConstructed s |}.

Definition set_secrets (m : SecretsManager.State) (s : State) : State :=
  {| pool := pool s; isInitializing := isInitializing s;
     initPromise := initPromise s; secrets := m;
     inFlight := inFlight s; nextPromise := nextPromise s;
     poolsConstructed := poolsConstructed s |}.

Definition set_inFlight (m : gmap nat Phase) (s : State) : State :=
  {| pool := pool s; isInitializing := isInitializing s;
     initPromise := initPromise s; secrets := secrets s;
     inFlight := m; nextPromise := nextPromise s;
     poolsConstructed := poolsConstructed s |}.

Definition count_promise (s : State) : State :=
  {| pool := pool s; isInitializing := isInitializing s;
     initPromise := initPromise s; secrets := secrets s;
     inFlight := inFlight s; nextPromise := S (nextPromise s);
     poolsConstructed := poolsConstructed s |}.

Definition count_pool (s : State) : State :=
  {| pool := pool s; isInitializing := isInitializing s;
     initPromise := initPromise s; secrets := secrets s;
     inFlight := inFlight s; nextPromise := nextPromise s;
     poolsConstructed := S (poolsConstructed s) |}.

(** What the event loop can run next. *)
Inductive Event : Type :=
  | Call
      (* an invocation calls [getPool()] *)
  | SecretReplies (p : PromiseId) (reply : SecretReply)
      (* [client.send] of the initialization behind promise [p] settles *)
  | ConnectSettles (p : PromiseId) (failure : option string)
      (* [newPool.connect()] of that initialization settles *)
  | CredentialsReady (p : PromiseId)
      (* the [await] on memoized credentials resumes *)
  | InitSettled (p : PromiseId)
      (* [await initPromise] in getPool resumes *)
  | PoolReset.
      (* [pool = null] by the 'error' listener or at the end of closePool *)

(** What a caller of [getPool()] holds when the call returns. *)
Inductive Handle : Type :=
  | Pooled (p : PoolId)          (* the existing pool *)
  | Pending (p : PromiseId).     (* waits on the initialization behind [p] *)

Inductive Observation : Type :=
  | Quiet
  | Got (h : Handle)
  | Settles (p : PromiseId) (r : Settled).
      (* everyone waiting on [p] gets the pool, or the error *)

Section Pool.

(** [process.env.DB_SECRET_NAME] *)
Variable secretName : option string.

(** [initializePool()] up to its first suspension.  The result is the phase
    in which the call is left; the [catch] block runs [pool = null] before
    the promise rejects. *)
Definition initializePool_start (s : State) : Phase * State :=
  if env_unset secretName then
    (Settling (Rejected "DB_SECRET_NAME environment variable is not set"),
     set_pool None s)
  else
    let (started, m) := getDatabaseCredentials_start secretName (secrets s) in
    match started with
    | Memoized c => (AwaitCredentials (Some c), set_secrets m s)
    | SendPending => (AwaitCredentials None, set_secrets m s)
    | Refused msg =>
        (Settling (Rejected msg), set_pool None (set_secrets m s))
    end.

(** [initializePool()] from the credentials to [await newPool.connect()]. *)
Definition construct (p : PromiseId) (s : State) : State :=
  let newPool := poolsConstructed s in
  set_inFlight (<[p := AwaitConnect newPool]> (inFlight s)) (count_pool s).

(** The [catch] block of [initializePool]. *)
Definition catch_init (p : PromiseId) (msg : string) (s : State) : State :=
  set_inFlight (<[p := Settling (Rejected msg)]> (inFlight s)) (set_pool None s).

(** [getPool()] up to its first suspension. *)
Definition getPool (s : State) : State * Observation :=
  match pool s with
  | Some p => (s, Got (Pooled p))
  | None =>
      match isInitializing s, initPromise s with
      | true, Some p => (s, Got (Pending p))
      | _, _ =>
          let p := nextPromise s in
          let (ph, s1) := initializePool_start (count_promise s) in
          (set_guard true (Some p) (set_inFlight (<[p := ph]> (inFlight s1)) s1),
           Got (Pending p))
      end
  end.

(** [getPool()] from [await initPromise] on: the assignment on success and
    the [finally] block either way. *)
Definition getPool_resume (p : PromiseId) (r : Settled) (s : State)
  : State * Observation :=
  let s1 := match r with
            | Fulfilled np => set_pool (Some np) s
            | Rejected _ => s
            end in
  (set_guard false None (set_inFlight (delete p (inFlight s1)) s1),
   Settles p r).

(** One turn of the event loop.  An event whose continuation is not waiting
    changes nothing. *)
Definition step (ev : Event) (s : State) : State * Observation :=
  match ev with
  | Call => getPool s
  | SecretReplies p reply =>
      match inFlight s !! p with
      | Some (AwaitCredentials None) =>
          let (res, m) := getDatabaseCredentials_resume reply (secrets s) in
          match res with
          | Returns c => (construct p (set_secrets m s), Quiet)
          | Throws msg => (catch_init p msg (set_secrets m s), Quiet)
          end
      | _ => (s, Quiet)
      end
  | ConnectSettles p failure =>
      match inFlight s !! p with
      | Some (AwaitConnect np) =>
          match failure with
          | None =>
              (set_inFlight (<[p := Settling (Fulfilled np)]> (inFlight s)) s,
               Quiet)
          | Some msg => (catch_init p msg s, Quiet)
          end
      | _ => (s, Quiet)
      end
  | CredentialsReady p =>
      match inFlight s !! p with
      | Some (AwaitCredentials (Some c)) => (construct p s, Quiet)
      | _ => (s, Quiet)
      end
  | InitSettled p =>
      match inFlight s !! p with
      | Some (Settling r) => getPool_resume p r s
      | _ => (s, Quiet)
      end
  | PoolReset => (set_pool None s, Quiet)
  end.

(** A schedule, run from left to right; the observations come out in order. *)
Fixpoint run (sched : list Event) (s : State) : State * list Observation :=
  match sched with
  | [] => (s, [])
  | ev :: rest =>
      let (s1, o) := step ev s in
      let (s2, os) := run rest s1 in
      (s2, o :: os)
  end.

End Pool.

(** No pool and no initialization under way. *)
Definition idle (s : State) : Prop :=
  pool s = None /\ isInitializing s = false /\ initPromise s = None /\
  inFlight s = ∅.

(** A process that has just started. *)
Definition fresh : State :=
  {| pool := None; isInitializing := false; initPromise := None;
     secrets := {| cachedCredentials := None; secretsRequested := 0%nat |};
     inFlight := ∅; nextPromise := 0%nat; poolsConstructed := 0%nat |}.

(** The calls of [getPool()] in a schedule. *)
Fixpoint callers (sched : list Event) : nat :=
  match sched with
  | [] => 0%nat
  | Call :: rest => S (callers rest)
  | _ :: rest => callers rest
  end.

(** The initialization behind promise [p] is the one under way, in phase
    [ph], and it is the only one. *)
Definition attempt (p : PromiseId) (ph : Phase) (s : State) : Prop :=
  pool s = None /\ isInitializing s = true /\ initPromise s = Some p /\
  inFlight s = {[ p := ph ]} /\ nextPromise s = S p.

(** What an initialization that started in state [s0] and has reached phase
    [ph] has done so far, in terms of the counters. *)
Definition counts (s0 : State) (ph : Phase) (s : State) : Prop :=
  match ph with
  | AwaitCredentials None =>
      cachedCredentials (secrets s0) = None /\
      poolsConstructed s = poolsConstructed s0 /\
      secretsRequested (secrets s) = S (secretsRequested (secrets s0))
  | AwaitCredentials (Some c) =>
      cachedCredentials (secrets s0) = Some c /\
      poolsConstructed s = poolsConstructed s0 /\
      secretsRequested (secrets s) = secretsRequested (secrets s0)
  | AwaitConnect np | Settling (Fulfilled np) =>
      np = poolsConstructed s0 /\
      poolsConstructed s = S (poolsConstructed s0) /\
      secretsRequested (secrets s) =
        match cachedCredentials (secrets s0) with
        | Some _ => secretsRequested (secrets s0)
        | None => S (secretsRequested (secrets s0))
        end
  | Settling (Rejected _) =>
      (poolsConstructed s <= S (poolsConstructed s0))%nat /\
      (secretsRequested (secrets s)
       <= S (secretsRequested (secrets s0)))%nat
  end.

(** What holds of the initialization under way according to its phase:
    before the pool is constructed no pool of this initialization exists
    yet, and while the secret is being fetched nothing is memoized; after
    it, the pool is one that was constructed. *)
Definition phase_ok (ph : Phase) (s : State) : Prop :=
  match ph with
  | AwaitCredentials None =>
      cachedCredentials (secrets s) = None /\
      (poolsConstructed s < nextPromise s)%nat
  | AwaitCredentials (Some _) => (poolsConstructed s < nextPromise s)%nat
  | AwaitConnect np | Settling (Fulfilled np) =>
      (np < poolsConstructed s)%nat
  | Settling (Rejected _) => True
  end.

(** The shape of the states the event loop goes through. *)
Definition sound (s : State) : Prop :=
  (poolsConstructed s <= nextPromise s)%nat /\
  (secretsRequested (secrets s) <= nextPromise s)%nat /\
  (forall np, pool s = Some np -> (np < poolsConstructed s)%nat) /\
  ((inFlight s = ∅ /\ isInitializing s = false /\ initPromise s = None) \/
   (exists p ph, attempt p ph s /\ phase_ok ph s)).

(** The handles among the observations. *)
Fixpoint handles (obs : list Observation) : list Handle :=
  match obs with
  | [] => []
  | Got h :: rest => h :: handles rest
  | _ :: rest => handles rest
  end.

End ConnectionPool.

(* ===================================================================== *)
(** ** The Lambda handler of the store-backed deployment, whole           *)
(* ===================================================================== *)

Module Lambda.

Import TokenVerifier.

(** The values of the request body.  The event reaches the handler as
    de-serialized JSON, and so does what [JSON.parse] makes of a string
    body: nothing in it is [undefined] or callable.  An object is the list
    of its members as written; where a key is repeated the last one is the
    property. *)
#[warnings="-register-all"] Inductive Json : Type :=
  | JNull
  | JBool (b : bool)
  | JNum (n : Z)
  | JStr (s : string)
  | JArr (items : list Json)
  | JObj (members : list (string * Json)).

(** A property that may be absent, seen as a JavaScript value. *)
Definition to_value (v : option Json) : JsValue :=
  match v with
  | None => VUndefined
  | Some JNull => VNull
  | Some (JBool b) => VBool b
  | Some (JNum n) => VNum n
  | Some (JStr s) => VStr s
  | Some (JArr _) | Some (JObj _) => VObject
  end.

(** Whether [ToString] returns on a value, as a template literal applies
    it.  On an object it looks for [toString]: without an own member of
    that name it finds [Object.prototype.toString] and returns; an own
    member of that name is not callable, and then neither is an own
    [valueOf], while the inherited [valueOf] returns the object itself, so
    a [TypeError] is thrown.  On an array it joins the items, converting
    each one that is not [null] the same way. *)
Fixpoint printable (v : Json) : bool :=
  match v with
  | JArr items => forallb printable items
  | JObj members =>
      negb (existsb (fun m => String.eqb (fst m) "toString") members)
  | _ => true
  end.

Definition printable_opt (v : option Json) : bool :=
  match v with
  | Some j => printable j
  | None => true
  end.

(** The message of that [TypeError] in V8. *)
Definition cannot_convert : string :=
  "Cannot convert object to primitive value".

(** [object.k] for the members of an object. *)
Fixpoint member (k : string) (members : list (string * Json)) : option Json :=
  match members with
  | [] => None
  | (k', v) :: rest =>
      match member k rest with
      | Some later => Some later
      | None => if String.eqb k' k then Some v else None
      end
  end.

(** [code.length] where it can be something other than a number or
    [undefined]: the [length] member of an object. *)
Definition code_length (code : Json) : option Json :=
  match code with
  | JObj members => member "length" members
  | _ => None
  end.

(** What the first statement of the handler leaves in [body]:
    [event.body] was a string that [JSON.parse] rejects; or the body (parsed
    or given as it is) is [null] or [undefined], on which the destructuring
    throws a [TypeError] with message [msg]; or it is anything else, with
    its properties (a number, a string or an array has none of the
    properties that are read). *)
Inductive Body : Type :=
  | InvalidJson
  | Nullish (msg : string)
  | Fields (f : gmap string Json).

(** [body.k] as a JavaScript value. *)
Definition prop (f : gmap string Json) (k : string) : JsValue :=
  to_value (f !! k).

(** The default of a destructuring pattern, [k = d]: taken when the
    property is [undefined], that is absent, not when it is [null]. *)
Definition or_default (v : option Json) (d : Json) : Json :=
  match v with
  | Some j => j
  | None => d
  end.

(** [v === 's'] *)
Definition is_str (v : Json) (s : string) : bool :=
  match v with
  | JStr t => String.eqb t s
  | _ => false
  end.

(** The collaborators of the handler: [shiki.codeToHtml(code, {lang,
    theme})] (a failure of the dynamic import of shiki is a failure of this
    call); the string [buildHtmlTemplate(highlighted, {background, padding,
    showLineNumbers, showWindowControls})] returns when its interpolations
    of [background] and [padding] succeed; [generatePNG(html)] with the
    buffer it returns; [generateSVG(html)]; and
    [buffer.toString('base64')]. *)
Record Renderer : Type := {
  codeToHtml : Json -> Json -> Json -> Outcome string;
  buildHtmlTemplate :
    string -> option Json -> option Json -> option Json -> option Json
    -> string;
  generatePNG : string -> Outcome string;
  generateSVG : string -> string;
  base64 : string -> string
}.

(** A response: a JSON error body [{error}] with at most one more field
    (its name and value), or an image with status 200.  The headers are
    fixed by the kind of response and are left out, [Content-Type] of the
    image apart. *)
Inductive Reply : Type :=
  | JsonReply (statusCode : Z) (error : string) (more : option (string * string))
  | ImageReply (contentType : string) (body : string) (isBase64Encoded : bool).

Definition double_quote : string :=
  String (Ascii.ascii_of_nat 34) EmptyString.

(** ['Invalid format. Must be "svg" or "png"'] *)
Definition invalid_format_message : string :=
  String.append "Invalid format. Must be "
    (String.append double_quote
       (String.append "svg"
          (String.append double_quote
             (String.append " or "
                (String.append double_quote
                   (String.append "png" double_quote)))))).

(** The outer [catch] of the handler. *)
Definition internal_error (msg : string) : Reply :=
  JsonReply 500 "Internal server error" (Some ("message", msg)).

(** The handler from the check of [code] to the end.  Between the checks
    and the highlighter stands the [console.log] whose template literal
    converts [language] and [code.length] to strings; inside
    [buildHtmlTemplate] the template converts [background] and [padding]
    (their defaults are a string and a number).  A conversion that throws
    is caught by the outer [catch]. *)
Definition render (rd : Renderer) (f : gmap string Json) : Reply :=
  let language := or_default (f !! "language") (JStr "javascript") in
  let theme := or_default (f !! "theme") (JStr "github-dark") in
  let format := or_default (f !! "format") (JStr "svg") in
  if negb (truthy (prop f "code")) then
    JsonReply 400 "Missing required field: code" None
  else if negb (is_str format "svg") && negb (is_str format "png") then
    JsonReply 400 invalid_format_message None
  else
    match f !! "code" with
    | None => JsonReply 400 "Missing required field: code" None
    | Some code =>
        if negb (printable language && printable_opt (code_length code)) then
          internal_error cannot_convert
        else
          match codeToHtml rd code language theme with
          | Throws msg =>
              JsonReply 400
                "Syntax highlighting failed. Check language and theme parameters."
                (Some ("details", msg))
          | Returns highlightedCode =>
              if negb (printable_opt (f !! "background") &&
                       printable_opt (f !! "padding")) then
                internal_error cannot_convert
              else
                let html := buildHtmlTemplate rd highlightedCode
                              (f !! "background") (f !! "padding")
                              (f !! "showLineNumbers")
                              (f !! "showWindowControls") in
                if is_str format "png" then
                  match generatePNG rd html with
                  | Returns imageData =>
                      ImageReply "image/png" (base64 rd imageData) true
                  | Throws msg => internal_error msg
                  end
                else ImageReply "image/svg+xml" (generateSVG rd html) false
          end
    end.

(** [exports.handler], on what the first statement left in [body]. *)
Definition handler (CACHE_TTL : Z) (st : Store) (rd : Renderer) (body : Body)
  : M Reply :=
  match body with
  | InvalidJson => ret (JsonReply 400 "Invalid JSON in request body" None)
  | Nullish msg => ret (internal_error msg)
  | Fields f =>
      auth <- TokenVerifier.handler CACHE_TTL st (prop f "token") ;;
      match auth with
      | Respond r =>
          ret (JsonReply (statusCode r) (body_error r)
                         (option_map (pair "message") (body_message r)))
      | Proceed _ => ret (render rd f)
      end
  end.

End Lambda.

(* ===================================================================== *)
(** ** auth/jaasClient.js                                                 *)
(* ===================================================================== *)

Module JaasClient.

(** What [makeRequest] resolves with: [statusCode] and [body]. *)
Record HttpResponse : Type := {
  resp_status : Z;
  resp_body : string
}.

(** An error as the [catch] block looks at it: [error.code] and
    [error.message]. *)
Record JsError : Type := {
  err_code : option string;
  err_message : option string
}.

(** What [JSON.parse] returns: [null], or a value with its properties (a
    number, a string, a boolean or an array has none of the properties that
    are read). *)
Inductive Json : Type :=
  | JsonNull
  | JsonObject (fields : gmap string JsValue).

(** The configuration and the library functions the client relies on:
    [process.env.JAAS_BASE_URL || ''], whether [new URL(base + '/validate')]
    succeeds, [body.trim().length === 0], and [JSON.parse]. *)
Record Config : Type := {
  JAAS_BASE_URL : string;
  URL_ok : bool;
  blank : string -> bool;
  JSON_parse : string -> Outcome Json
}.

(** The object [validateApiKey] resolves with.  [v_error] and
    [v_statusCode] are [error] and [statusCode]; a field the object literal
    leaves out is [VUndefined], [None] or [false]. *)
Record Validation : Type := {
  v_valid : bool;
  v_apiKeyId : JsValue;
  v_remainingQuota : JsValue;
  v_productName : JsValue;
  v_error : option string;
  v_statusCode : option Z;
  v_quotaExceeded : bool
}.

Definition invalid (err : string) (code : Z) : Validation :=
  {| v_valid := false; v_apiKeyId := VUndefined;
     v_remainingQuota := VUndefined; v_productName := VUndefined;
     v_error := Some err; v_statusCode := Some code;
     v_quotaExceeded := false |}.

Definition quota_exceeded : Validation :=
  {| v_valid := false; v_apiKeyId := VUndefined;
     v_remainingQuota := VUndefined; v_productName := VUndefined;
     v_error := Some "Monthly quota exceeded. Please upgrade your plan or wait for quota reset.";
     v_statusCode := Some 429; v_quotaExceeded := true |}.

(** [String.prototype.includes] *)
Fixpoint includes (s sub : string) : bool :=
  String.prefix sub s ||
  match s with
  | EmptyString => false
  | String _ rest => includes rest sub
  end.

(** [String.prototype.toLowerCase] on the bytes of the string: the letters
    A to Z are lowered and everything else is left as it is.  No character
    outside ASCII lowers to a letter of "quota", so the search that follows
    finds what it finds in JavaScript. *)
Definition lower (c : Ascii.ascii) : Ascii.ascii :=
  let n := Ascii.nat_of_ascii c in
  if (65 <=? n)%nat && (n <=? 90)%nat then Ascii.ascii_of_nat (n + 32) else c.

Fixpoint toLowerCase (s : string) : string :=
  match s with
  | EmptyString => EmptyString
  | String c rest => String (lower c) (toLowerCase rest)
  end.

(** [opt === 's'] for an optional string. *)
Definition code_is (c : option string) (s : string) : bool :=
  match c with
  | Some t => String.eqb t s
  | None => false
  end.

(** The [catch] block of [validateApiKey]. *)
Definition on_error (e : JsError) : Validation :=
  if code_is (err_code e) "ECONNABORTED" ||
     match err_message e with
     | Some m => includes m "timeout"
     | None => false
     end
  then invalid "Authentication service timeout. Please try again later." 503
  else if code_is (err_code e) "ECONNREFUSED" || code_is (err_code e) "ENOTFOUND"
  then invalid "Authentication service unavailable" 503
  else invalid "Authentication service error" 503.

(** The [TypeError] of a property read on [null] and of a call of
    [toLowerCase] on something that has none, with the messages of V8. *)
Definition null_read (k : string) : JsError :=
  {| err_code := None;
     err_message :=
       Some (String.append "Cannot read properties of null (reading '"
                           (String.append k "')")) |}.

Definition not_a_function : JsError :=
  {| err_code := None;
     err_message := Some "errorMessage.toLowerCase is not a function" |}.

(** [responseData.k] *)
Definition member (d : Json) (k : string) : JsError + JsValue :=
  match d with
  | JsonNull => inl (null_read k)
  | JsonObject f => inr (default VUndefined (f !! k))
  end.

(** [v === true] *)
Definition is_true (v : JsValue) : bool :=
  match v with
  | VBool true => true
  | _ => false
  end.

(** The chain of tests on the status code, from
    [response.statusCode === 200 && responseData.valid === true] on; [inl]
    is an exception on its way to the [catch] block. *)
Definition by_status (status : Z) (d : Json) : JsError + Validation :=
  match (if status =? 200 then
           match member d "valid" with
           | inl e => inl e
           | inr v => inr (is_true v)
           end
         else inr false) with
  | inl e => inl e
  | inr true =>
      match member d "apiKeyId", member d "remainingQuota",
            member d "productName" with
      | inr k, inr q, inr n =>
          inr {| v_valid := true; v_apiKeyId := k; v_remainingQuota := q;
                 v_productName := n; v_error := None; v_statusCode := None;
                 v_quotaExceeded := false |}
      | inl e, _, _ | _, inl e, _ | _, _, inl e => inl e
      end
  | inr false =>
      if status =? 401 then
        match member d "error" with
        | inl e => inl e
        | inr err =>
            match (if truthy err then err else VStr "Invalid API key") with
            | VStr errorMessage =>
                if includes (toLowerCase errorMessage) "quota"
                then inr quota_exceeded
                else inr (invalid "Invalid API key" 401)
            | _ => inl not_a_function
            end
        end
      else if status =? 429 then
        inr (invalid "Rate limit exceeded. Please try again later." 429)
      else
        inr (invalid "Authentication service temporarily unavailable" 503)
  end.

Section Client.

Variable cfg : Config.

(** [makeRequest(client, url, options, requestBody)] for the body built
    from an API key: a response, or a rejection. *)
Variable makeRequest : string -> JsError + HttpResponse.

(** [validateApiKey(apiKey)] *)
Definition validateApiKey (apiKey : JsValue) : Validation :=
  if String.eqb (JAAS_BASE_URL cfg) "" then
    invalid "Authentication service configuration error" 503
  else if negb (truthy apiKey) || negb (is_string apiKey) then
    invalid "API key is required" 401
  else if negb (URL_ok cfg) then
    invalid "Invalid authentication service URL configuration" 503
  else
    match apiKey with
    | VStr key =>
        match makeRequest key with
        | inl e => on_error e
        | inr response =>
            if String.eqb (resp_body response) "" ||
               blank cfg (resp_body response)
            then invalid "Authentication service returned empty response" 503
            else
              match JSON_parse cfg (resp_body response) with
              | Throws _ =>
                  invalid "Invalid response from authentication service" 503
              | Returns responseData =>
                  match by_status (resp_status response) responseData with
                  | inl e => on_error e
                  | inr v => v
                  end
              end
        end
    | _ => invalid "API key is required" 401
    end.

End Client.

End JaasClient.

(* ===================================================================== *)
(** ** Concrete stores, records and caches used in the examples           *)
(* ===================================================================== *)

Import TokenVerifier.

(** The default TTL: 300 seconds. *)
Definition ttl_default : Z := 300000.

(** A warm process with nothing cached, at some instant. *)
Definition cold : World :=
  {| tokenCache := ∅; clock := 1700000000000; storeQueries := 0 |}.

(** A store that cannot be reached. *)
Definition store_down : Store :=
  {| rows_for := fun _ => Throws "connect ECONNREFUSED 10.0.0.5:5432";
     latency := 20 |}.

(** A store with no tokens at all. *)
Definition store_empty : Store :=
  {| rows_for := fun _ => Returns []; latency := 20 |}.

(** A store that knows exactly the token [tok_abc], with record [r]. *)
Definition store_with (r : TokenRecord) : Store :=
  {| rows_for := fun t => if String.eqb t "tok_abc" then Returns [r]
                          else Returns [];
     latency := 20 |}.

Definition rec_active : TokenRecord :=
  {| user_id := "u1"; expires_at := None; is_active := Some true;
     created_at := 1600000000000 |}.

Definition rec_inactive : TokenRecord :=
  {| user_id := "u1"; expires_at := None; is_active := Some false;
     created_at := 1600000000000 |}.

(** Inactive and, independently, expired an hour before [cold]. *)
Definition rec_inactive_expired : TokenRecord :=
  {| user_id := "u1"; expires_at := Some 1699996400000;
     is_active := Some false; created_at := 1600000000000 |}.

(** Active, expired an hour before [cold]. *)
Definition rec_expired : TokenRecord :=
  {| user_id := "u1"; expires_at := Some 1699996400000;
     is_active := Some true; created_at := 1600000000000 |}.

(** Active, expiring ten minutes after [cold]. *)
Definition rec_expiring : TokenRecord :=
  {| user_id := "u1"; expires_at := Some 1700000600000;
     is_active := Some true; created_at := 1600000000000 |}.

(** Active, expiring one minute after [cold]: well inside the TTL. *)
Definition rec_expiring_soon : TokenRecord :=
  {| user_id := "u1"; expires_at := Some 1700000060000;
     is_active := Some true; created_at := 1600000000000 |}.

(** A cache that holds a negative result for [tok_abc], one second old. *)
Definition negative_cached : World :=
  {| tokenCache := {[ "tok_abc" := {| result := tokenInactive rec_inactive;
                                      cachedAt := 1699999999000 |} ]};
     clock := 1700000000000; storeQueries := 0 |}.

Import SecretsManager.
Import ConnectionPool.

(** A secret in the shape the code reads: the user is under [username]. *)
Definition secret_username : gmap string JsValue :=
  list_to_map [("host", VStr "db.internal"); ("port", VNum 5432);
               ("database", VStr "app"); ("username", VStr "svc");
               ("password", VStr "pw")].

(** The same secret with the user under [user]. *)
Definition secret_user : gmap string JsValue :=
  list_to_map [("host", VStr "db.internal"); ("port", VNum 5432);
               ("database", VStr "app"); ("user", VStr "svc");
               ("password", VStr "pw")].

(** A secret that has every field, the password being the empty string. *)
Definition secret_blank_password : gmap string JsValue :=
  list_to_map [("host", VStr "db.internal"); ("port", VNum 5432);
               ("database", VStr "app"); ("user", VStr "svc");
               ("username", VStr "svc"); ("password", VStr "")].

(** [DB_SECRET_NAME] as set in a deployment. *)
Definition secret_name_set : option string := Some "prod/code-to-image/db".

(** Five callers arrive while one initialization runs to success: two more
    before the secret is there, one while the pool connects, one after the
    connection test. *)
Definition five_callers : list Event :=
  [Call; Call; SecretReplies 0%nat (Parsed secret_username); Call;
   ConnectSettles 0%nat None; Call].

(** A pool error after a successful start, then a caller and the steps of
    the initialization that this caller sets off (its promise is 1). *)
Definition rebuild : list Event :=
  [PoolReset; Call; CredentialsReady 1%nat; ConnectSettles 1%nat None;
   InitSettled 1%nat].

(** The secret is readable but the database refuses the connection. *)
Definition connect_refused : list Event :=
  [SecretReplies 0%nat (Parsed secret_username);
   ConnectSettles 0%nat (Some "connect ECONNREFUSED 10.0.0.5:5432")].

(** A renderer that knows one language. *)
Definition demo_renderer : Lambda.Renderer :=
  {| Lambda.codeToHtml := fun code language theme =>
       if Lambda.is_str language "javascript"
       then Returns "<pre class=shiki><code>...</code></pre>"
       else Throws "Language not found";
     Lambda.buildHtmlTemplate := fun highlighted _ _ _ _ =>
       String.append "<html><body>" (String.append highlighted "</body></html>");
     Lambda.generatePNG := fun _ => Throws "Failed to launch the browser process";
     Lambda.generateSVG := fun html => String.append "<svg>" (String.append html "</svg>");
     Lambda.base64 := fun buffer => buffer |}.

(** Request bodies: a good one, one without [format], one with
    [format: null], one for PNG, one without [token], and two whose
    [language] or [background] is an object with a member [toString]. *)
Definition body_svg : gmap string Lambda.Json :=
  list_to_map [("token", Lambda.JStr "tok_abc");
               ("code", Lambda.JStr "let x = 1");
               ("format", Lambda.JStr "svg")].

Definition body_default_format : gmap string Lambda.Json :=
  list_to_map [("token", Lambda.JStr "tok_abc");
               ("code", Lambda.JStr "let x = 1")].

Definition body_null_format : gmap string Lambda.Json :=
  list_to_map [("token", Lambda.JStr "tok_abc");
               ("code", Lambda.JStr "let x = 1");
               ("format", Lambda.JNull)].

Definition body_png : gmap string Lambda.Json :=
  list_to_map [("token", Lambda.JStr "tok_abc");
               ("code", Lambda.JStr "let x = 1");
               ("format", Lambda.JStr "png")].

Definition body_no_token : gmap string Lambda.Json :=
  list_to_map [("format", Lambda.JStr "gif")].

Definition body_odd_language : gmap string Lambda.Json :=
  list_to_map [("token", Lambda.JStr "tok_abc");
               ("code", Lambda.JStr "let x = 1");
               ("language",
                Lambda.JObj [("toString", Lambda.JNum 5)])].

Definition body_odd_background : gmap string Lambda.Json :=
  list_to_map [("token", Lambda.JStr "tok_abc");
               ("code", Lambda.JStr "let x = 1");
               ("background",
                Lambda.JObj [("toString", Lambda.JNum 0)])].

(** A cache that holds a valid result for [tok_abc], one second old. *)
Definition positive_cached : World :=
  {| tokenCache := {[ "tok_abc" := {| result := tokenValid rec_active;
                                      cachedAt := 1699999999000 |} ]};
     clock := 1700000000000; storeQueries := 0 |}.

(** A configured client whose service answers with a fixed response. *)
Definition jaas_config : JaasClient.Config :=
  {| JaasClient.JAAS_BASE_URL := "https://jaas.example.com";
     JaasClient.URL_ok := true;
     JaasClient.blank := fun body => String.eqb body " ";
     JaasClient.JSON_parse := fun body =>
       if String.eqb body "revoked" then
         Returns (JaasClient.JsonObject
                    (list_to_map [("valid", VBool false);
                                  ("error", VStr "API key has been revoked")]))
       else if String.eqb body "unknown" then
         Returns (JaasClient.JsonObject
                    (list_to_map [("error", VStr "API key does not exist")]))
       else if String.eqb body "quota" then
         Returns (JaasClient.JsonObject
                    (list_to_map [("error", VStr "Monthly Quota exceeded")]))
       else if String.eqb body "ok" then
         Returns (JaasClient.JsonObject
                    (list_to_map [("valid", VBool true);
                                  ("remainingQuota", VNum 41)]))
       else Throws "Unexpected token" |}.

Definition jaas_answers (status : Z) (body : string)
  : string -> JaasClient.JsError + JaasClient.HttpResponse :=
  fun _ => inr {| JaasClient.resp_status := status;
                  JaasClient.resp_body := body |}.

(* ===================================================================== *)
(** ** Facts about the verifier                                           *)
(* ===================================================================== *)

Section VerifierFacts.

Variable CACHE_TTL : Z.

Local Abbreviation checkCache := (TokenVerifier.checkCache CACHE_TTL).
Local Abbreviation verifyToken := (TokenVerifier.verifyToken CACHE_TTL).
Local Abbreviation handler := (TokenVerifier.handler CACHE_TTL).

Lemma truthy_nonempty (s : string) : s <> "" -> truthy (VStr s) = true.
Proof.
  intros Hs. simpl. apply negb_true_iff. now apply String.eqb_neq.
Qed.

Lemma checkCache_miss (token : string) (w : World) :
  tokenCache w !! token = None -> checkCache token w = (None, w).
Proof.
  intros Hm. unfold TokenVerifier.checkCache, bind, cache_get. now rewrite Hm.
Qed.

(** Within the TTL, an entry that is invalid, or valid with no expiry of its
    own, or valid and not yet expired, is returned as it is. *)
Lemma checkCache_fresh (token : string) (w : World) (c : CacheEntry) :
  tokenCache w !! token = Some c ->
  clock w - cachedAt c < CACHE_TTL ->
  (isValid (result c) = true ->
   forall e, expiresAt (result c) = Some e -> clock w <= e) ->
  checkCache token w = (Some (result c), w).
Proof.
  intros Hc Hage Hexp.
  unfold TokenVerifier.checkCache, bind, cache_get, Date_now, ret. rewrite Hc.
  assert (Hlt : (clock w - cachedAt c <? CACHE_TTL) = true) by now apply Z.ltb_lt.
  rewrite Hlt.
  destruct (isValid (result c)) eqn:Hv; [|reflexivity].
  destruct (expiresAt (result c)) as [e|] eqn:He; [|reflexivity].
  assert (Hle : (e <? clock w) = false).
  { apply Z.ltb_ge. now apply Hexp. }
  now rewrite Hle.
Qed.

(** An entry older than the TTL, or a valid one whose own expiry has passed,
    is deleted and control reaches the store query. *)
Lemma checkCache_evicts (token : string) (w : World) (c : CacheEntry) :
  tokenCache w !! token = Some c ->
  CACHE_TTL <= clock w - cachedAt c \/
  (isValid (result c) = true /\
   exists e, expiresAt (result c) = Some e /\ e < clock w) ->
  checkCache token w = (None, evicted token w).
Proof.
  intros Hc Hwhy.
  unfold TokenVerifier.checkCache, bind, cache_get, Date_now, ret, cache_delete. rewrite Hc.
  destruct (clock w - cachedAt c <? CACHE_TTL) eqn:Hlt; [|reflexivity].
  destruct Hwhy as [Hold | (Hv & e & He & Hpast)].
  - apply Z.ltb_lt in Hlt. lia.
  - rewrite Hv, He.
    assert (Hp : (e <? clock w) = true) by now apply Z.ltb_lt.
    now rewrite Hp.
Qed.

(** Whatever the cache check does, it is one of: return an entry's result
    and leave the world alone, or fall through with that key absent. *)
Lemma checkCache_cases (token : string) (w : World) :
  (exists c, tokenCache w !! token = Some c /\
             checkCache token w = (Some (result c), w)) \/
  (exists w1, checkCache token w = (None, w1) /\
              tokenCache w1 = delete token (tokenCache w) /\
              clock w1 = clock w /\ storeQueries w1 = storeQueries w).
Proof.
  unfold TokenVerifier.checkCache, bind, cache_get, Date_now, ret, cache_delete.
  destruct (tokenCache w !! token) as [c|] eqn:Hc.
  - destruct (clock w - cachedAt c <? CACHE_TTL).
    + destruct (isValid (result c)); [|left; eauto].
      destruct (expiresAt (result c)) as [e|]; [|left; eauto].
      destruct (e <? clock w); [|left; eauto].
      right. eexists. split; [reflexivity|]. simpl. auto.
    + right. eexists. split; [reflexivity|]. simpl. auto.
  - right. exists w. split; [reflexivity|].
    split; [|auto]. symmetry. now apply delete_id.
Qed.

Lemma checkCache_None_absent (token : string) (w w1 : World) :
  checkCache token w = (None, w1) ->
  tokenCache w1 = delete token (tokenCache w) /\
  clock w1 = clock w /\ storeQueries w1 = storeQueries w.
Proof.
  intros H. destruct (checkCache_cases token w) as [(c & _ & Hc) | (w' & Hc & Hw)].
  - congruence.
  - rewrite H in Hc. now inversion Hc; subst.
Qed.

Lemma queryAndCache_eq (st : Store) (token : string) (w : World) :
  queryAndCache st token w =
  match rows_for st token with
  | Throws _ => (Returns verificationFailed, queried st w)
  | Returns rows =>
      let r := judge rows (clock w + latency st) in
      (Returns r,
       if isValid r then
         {| tokenCache :=
              <[token := {| result := r; cachedAt := clock w + latency st |}]>
                (tokenCache w);
            clock := clock w + latency st;
            storeQueries := S (storeQueries w) |}
       else queried st w)
  end.
Proof.
  unfold TokenVerifier.queryAndCache, queryDatabase, query, bind, ret, Date_now, cache_set.
  destruct (rows_for st token) as [rows|e]; [|reflexivity].
  simpl. destruct (isValid (judge rows (clock w + latency st))); reflexivity.
Qed.

Lemma verifyToken_string (st : Store) (s : string) (w : World) :
  s <> "" ->
  verifyToken st (VStr s) w =
  match checkCache s w with
  | (Some r, w1) => (Returns r, w1)
  | (None, w1) => queryAndCache st s w1
  end.
Proof.
  intros Hs. unfold TokenVerifier.verifyToken.
  rewrite (truthy_nonempty s Hs). cbn [is_string negb orb].
  unfold bind, ret. destruct (checkCache s w) as [[r|] w1]; reflexivity.
Qed.

(** A token is a non-empty string, or it is turned away at once. *)
Lemma token_cases (token : JsValue) :
  (exists s, token = VStr s /\ s <> "") \/
  (forall s, token = VStr s -> s = "").
Proof.
  destruct token as [| |b|n|s|]; try (right; intros s' Hs'; discriminate Hs').
  destruct (String.eqb_spec s "") as [->|Hs]; [|left; eauto].
  right. intros s' Hs'. now inversion Hs'.
Qed.

Lemma verifyToken_not_a_token (st : Store) (token : JsValue) (w : World) :
  (forall s, token = VStr s -> s = "") ->
  verifyToken st token w = (Returns tokenRequired, w).
Proof.
  intros Hn. unfold TokenVerifier.verifyToken.
  destruct token as [| |b|n|s|]; cbn [is_string negb];
    rewrite ?orb_true_r; try reflexivity.
  rewrite (Hn s eq_refl). reflexivity.
Qed.

(** [verifyToken] has no path that throws: the [catch] around the store
    query turns every rejection into a result. *)
Lemma verifyToken_returns (st : Store) (token : JsValue) (w : World) :
  exists r, fst (verifyToken st token w) = Returns r.
Proof.
  destruct (token_cases token) as [(s & -> & Hs) | Hn];
    [|rewrite verifyToken_not_a_token by assumption; eexists; reflexivity].
  rewrite verifyToken_string by assumption.
  destruct (checkCache s w) as [[r|] w1]; [eexists; reflexivity|].
  rewrite queryAndCache_eq.
  destruct (rows_for st s); eexists; reflexivity.
Qed.

Lemma verifyToken_fallthrough (st : Store) (s : string) (w w1 : World) :
  s <> "" -> checkCache s w = (None, w1) ->
  verifyToken st (VStr s) w = queryAndCache st s w1.
Proof.
  intros Hs Hc. rewrite verifyToken_string by assumption. now rewrite Hc.
Qed.

Lemma verifyToken_hit (st : Store) (s : string) (w w1 : World) (r : VerifyResult) :
  s <> "" -> checkCache s w = (Some r, w1) ->
  verifyToken st (VStr s) w = (Returns r, w1).
Proof.
  intros Hs Hc. rewrite verifyToken_string by assumption. now rewrite Hc.
Qed.

(** Every call of [verifyToken] is of one of two kinds: it answers without
    touching the store and leaves the world as it was, or it issues exactly
    one query, after which the cache is the old one without the key, plus
    the fresh entry when (and only when) the result is valid. *)
Lemma verifyToken_effect (st : Store) (token : JsValue) (w : World) :
  (exists r, verifyToken st token w = (Returns r, w)) \/
  (exists s r w', token = VStr s /\ s <> "" /\
     verifyToken st token w = (Returns r, w') /\
     storeQueries w' = S (storeQueries w) /\
     clock w' = clock w + latency st /\
     tokenCache w' =
       if isValid r
       then <[s := {| result := r; cachedAt := clock w' |}]>
              (delete s (tokenCache w))
       else delete s (tokenCache w)).
Proof.
  destruct (token_cases token) as [(s & -> & Hs) | Hn];
    [|left; eexists; now apply verifyToken_not_a_token].
  destruct (checkCache_cases s w)
    as [(c & _ & Hc) | (w1 & Hc & Hcache & Hclock & Hq)].
  - left. exists (result c). now apply verifyToken_hit.
  - right. rewrite (verifyToken_fallthrough st s w w1 Hs Hc), queryAndCache_eq.
    destruct (rows_for st s) as [rows|e].
    + cbv zeta. exists s, (judge rows (clock w1 + latency st)).
      eexists. split; [reflexivity|]. split; [assumption|].
      split; [reflexivity|].
      destruct (isValid (judge rows (clock w1 + latency st))); simpl;
        rewrite ?Hcache, ?Hclock, ?Hq; auto.
    + exists s, verificationFailed. eexists. split; [reflexivity|].
      split; [assumption|]. split; [reflexivity|]. simpl.
      rewrite ?Hcache, ?Hclock, ?Hq; auto.
Qed.

Lemma handler_string (st : Store) (s : string) (w : World) :
  s <> "" ->
  handler st (VStr s) w =
  match verifyToken st (VStr s) w with
  | (Throws _, w') =>
      (Respond {| statusCode := 503;
                  body_error := "Service temporarily unavailable";
                  body_message :=
                    Some "Unable to verify token. Please try again later." |},
       w')
  | (Returns tv, w') =>
      (if isValid tv then Proceed tv
       else Respond {| statusCode := 401; body_error := errorMessage tv;
                       body_message := None |},
       w')
  end.
Proof.
  intros Hs. unfold TokenVerifier.handler.
  rewrite (truthy_nonempty s Hs). cbn [negb]. unfold bind, ret.
  destruct (TokenVerifier.verifyToken CACHE_TTL st (VStr s) w) as [[tv|e] w'];
    [|reflexivity].
  now destruct (isValid tv).
Qed.

(** The token check of the handler answers 401 or lets the request through;
    its 503 branch is never taken, because [verifyToken] never throws. *)
Lemma handler_responds_401_only (st : Store) (token : JsValue) (w : World)
      (resp : Response) :
  fst (handler st token w) = Respond resp -> statusCode resp = 401.
Proof.
  unfold TokenVerifier.handler.
  destruct (truthy token) eqn:Ht; cbn [negb].
  - unfold bind, ret.
    destruct (verifyToken_returns st token w) as [r Hr].
    destruct (TokenVerifier.verifyToken CACHE_TTL st token w) as [o w'].
    simpl in Hr. subst o.
    destruct (isValid r); simpl; intros H; inversion H; reflexivity.
  - simpl. intros H. inversion H. reflexivity.
Qed.

(** A store rejection on the query path: the generic result, one query,
    nothing written to the cache, and a 401 from the handler. *)
Lemma store_error_path (st : Store) (s : string) (w w1 : World) (e : string) :
  s <> "" -> checkCache s w = (None, w1) -> rows_for st s = Throws e ->
  verifyToken st (VStr s) w = (Returns verificationFailed, queried st w1) /\
  handler st (VStr s) w =
    (Respond {| statusCode := 401; body_error := "Token verification failed";
                body_message := None |}, queried st w1).
Proof.
  intros Hs Hc He.
  assert (Hv : verifyToken st (VStr s) w
               = (Returns verificationFailed, queried st w1)).
  { rewrite (verifyToken_fallthrough st s w w1 Hs Hc), queryAndCache_eq.
    now rewrite He. }
  split; [exact Hv|].
  rewrite handler_string by assumption. now rewrite Hv.
Qed.

Lemma queryAndCache_one_query (st : Store) (s : string) (w : World) :
  storeQueries (snd (queryAndCache st s w)) = S (storeQueries w).
Proof.
  rewrite queryAndCache_eq.
  destruct (rows_for st s) as [rows|e]; [|reflexivity].
  cbv zeta. now destruct (isValid (judge rows (clock w + latency st))).
Qed.

(** A valid result is, on return, what the cache holds for the token. *)
Lemma verifyToken_valid_cached (st : Store) (token : JsValue) (w w' : World)
      (r : VerifyResult) :
  verifyToken st token w = (Returns r, w') -> isValid r = true ->
  exists s c, token = VStr s /\ s <> "" /\
              tokenCache w' !! s = Some c /\ result c = r.
Proof.
  intros Hv Hok.
  destruct (token_cases token) as [(s & -> & Hs) | Hn].
  2:{ rewrite verifyToken_not_a_token in Hv by assumption.
      inversion Hv; subst; discriminate Hok. }
  exists s.
  destruct (checkCache_cases s w) as [(c & Hin & Hc) | (w1 & Hc & _)].
  - rewrite (verifyToken_hit st s w w (result c) Hs Hc) in Hv.
    inversion Hv; subst. eauto.
  - rewrite (verifyToken_fallthrough st s w w1 Hs Hc), queryAndCache_eq in Hv.
    destruct (rows_for st s) as [rows|e].
    + cbv zeta in Hv.
      destruct (isValid (judge rows (clock w1 + latency st))) eqn:Hj;
        inversion Hv; subst; [|congruence]. simpl.
      eexists. split; [reflexivity|]. split; [assumption|].
      split; [apply lookup_insert_eq|reflexivity].
    + inversion Hv; subst; discriminate Hok.
Qed.

(** C3.  The cache only ever holds valid results, and every call of
    [verifyToken] keeps it so; a call that answers with an invalid result
    (not found, inactive, expired, query error) adds nothing to the cache;
    and two consecutive calls for a token that is neither cached nor in the
    store issue one store query each. *)
Theorem negative_results_never_cached (st : Store) :
  (forall token w,
      only_valid_cached w ->
      only_valid_cached (snd (verifyToken st token w))) /\
  (forall token w r,
      fst (verifyToken st token w) = Returns r -> isValid r = false ->
      forall k c, tokenCache (snd (verifyToken st token w)) !! k = Some c ->
                  tokenCache w !! k = Some c) /\
  (forall (st' : Store) (s : string) (w : World) (dt : Z),
      s <> "" -> tokenCache w !! s = None ->
      rows_for st s = Returns [] -> rows_for st' s = Returns [] ->
      let first := verifyToken st (VStr s) w in
      let second := verifyToken st' (VStr s) (elapse dt (snd first)) in
      fst first = Returns tokenNotFound /\
      storeQueries (snd first) = S (storeQueries w) /\
      fst second = Returns tokenNotFound /\
      storeQueries (snd second) = S (S (storeQueries w)) /\
      tokenCache (snd second) = tokenCache w).
Proof.
  split; [|split].
  - intros token w Hinv.
    destruct (verifyToken_effect st token w)
      as [(r & H) | (s & r & w' & -> & Hs & H & _ & _ & Hcache)];
      rewrite H; simpl; [assumption|].
    intros k c Hk. rewrite Hcache in Hk.
    destruct (isValid r) eqn:Hv.
    + destruct (decide (s = k)) as [->|Hne].
      * rewrite lookup_insert_eq in Hk. inversion Hk; subst. exact Hv.
      * rewrite lookup_insert_ne in Hk by assumption.
        apply lookup_delete_Some in Hk. eapply Hinv, Hk.
    + apply lookup_delete_Some in Hk. eapply Hinv, Hk.
  - intros token w r Hr Hbad k c.
    destruct (verifyToken_effect st token w)
      as [(r' & H) | (s & r' & w' & -> & Hs & H & _ & _ & Hcache)];
      rewrite H in Hr |- *; simpl in Hr |- *; [auto|].
    inversion Hr; subst r'. rewrite Hcache, Hbad.
    intros Hk. now apply lookup_delete_Some in Hk.
  - intros st' s w dt Hs Hmiss Hrows Hrows'. cbv zeta.
    assert (H1 : verifyToken st (VStr s) w
                 = (Returns tokenNotFound, queried st w)).
    { rewrite (verifyToken_fallthrough st s w w Hs (checkCache_miss s w Hmiss)).
      rewrite queryAndCache_eq, Hrows. reflexivity. }
    rewrite H1. cbn [fst snd].
    assert (H2 : verifyToken st' (VStr s) (elapse dt (queried st w))
                 = (Returns tokenNotFound,
                    queried st' (elapse dt (queried st w)))).
    { rewrite (verifyToken_fallthrough st' s _ (elapse dt (queried st w)) Hs).
      - rewrite queryAndCache_eq, Hrows'. reflexivity.
      - apply checkCache_miss. exact Hmiss. }
    rewrite H2. cbn [fst snd]. repeat split; reflexivity.
Qed.

(** C4.  When the store returns a record, [verifyToken] decides in this
    order: [is_active === false] gives the invalid result with error
    "Token is inactive" whatever [expires_at] is; otherwise an [expires_at]
    that is present and earlier than the current time gives the invalid
    result with error "Token has expired"; otherwise the result is valid,
    carries the owner, and is put in the cache under the token with the
    current time as [cachedAt].  The two rejections leave the cache alone. *)
Theorem record_decision_order (st : Store) (s : string) (w w1 : World)
        (r : TokenRecord) (rest : list TokenRecord) :
  s <> "" -> checkCache s w = (None, w1) ->
  rows_for st s = Returns (r :: rest) ->
  let now := clock w1 + latency st in
  let out := verifyToken st (VStr s) w in
  (is_active r = Some false ->
     fst out = Returns (tokenInactive r) /\
     isValid (tokenInactive r) = false /\
     error (tokenInactive r) = Some "Token is inactive" /\
     tokenCache (snd out) = tokenCache w1) /\
  (is_active r <> Some false ->
   (exists t, expires_at r = Some t /\ t < now) ->
     fst out = Returns (tokenExpired r) /\
     isValid (tokenExpired r) = false /\
     error (tokenExpired r) = Some "Token has expired" /\
     tokenCache (snd out) = tokenCache w1) /\
  (is_active r <> Some false ->
   (forall t, expires_at r = Some t -> now <= t) ->
     fst out = Returns (tokenValid r) /\
     isValid (tokenValid r) = true /\
     userId (tokenValid r) = Some (user_id r) /\
     clock (snd out) = now /\
     tokenCache (snd out) =
       <[s := {| result := tokenValid r; cachedAt := now |}]> (tokenCache w1)).
Proof.
  intros Hs Hc Hrows. cbv zeta.
  rewrite (verifyToken_fallthrough st s w w1 Hs Hc), queryAndCache_eq, Hrows.
  cbv zeta. unfold judge, is_active_false, expired_at.
  split; [|split].
  - intros Hina. rewrite Hina. simpl. auto.
  - intros Hact (t & Ht & Hpast).
    assert (Hlt : (t <? clock w1 + latency st) = true) by now apply Z.ltb_lt.
    destruct (is_active r) as [[|]|]; try congruence;
      rewrite Ht, Hlt; simpl; auto.
  - intros Hact Hfut.
    assert (Hge : match expires_at r with
                  | Some t => t <? clock w1 + latency st
                  | None => false
                  end = false).
    { destruct (expires_at r) as [t|]; [|reflexivity].
      apply Z.ltb_ge. now apply Hfut. }
    destruct (is_active r) as [[|]|]; try congruence;
      rewrite Hge; simpl; auto.
Qed.

(** What a later call does with the entry of a valid result, in terms of
    the [expiresAt] that the cached result carries. *)
Lemma cached_result_until_ttl_or_expiry (st st' : Store) (token : JsValue)
        (w0 w1 : World) (r : VerifyResult) (dt : Z) :
  verifyToken st token w0 = (Returns r, w1) -> isValid r = true ->
  exists s c,
    token = VStr s /\ tokenCache w1 !! s = Some c /\ result c = r /\
    let w := elapse dt w1 in
    (clock w - cachedAt c < CACHE_TTL ->
     (forall e, expiresAt r = Some e -> clock w <= e) ->
       verifyToken st' token w = (Returns r, w)) /\
    (CACHE_TTL <= clock w - cachedAt c \/
     (exists e, expiresAt r = Some e /\ e < clock w) ->
       tokenCache (evicted s w) !! s = None /\
       verifyToken st' token w = queryAndCache st' s (evicted s w) /\
       storeQueries (snd (verifyToken st' token w)) = S (storeQueries w)).
Proof.
  intros Hv Hok.
  destruct (verifyToken_valid_cached st token w0 w1 r Hv Hok)
    as (s & c & -> & Hs & Hin & Hres).
  exists s, c. split; [reflexivity|]. split; [exact Hin|].
  split; [exact Hres|]. cbv zeta.
  assert (Hin' : tokenCache (elapse dt w1) !! s = Some c) by exact Hin.
  split.
  - intros Hage Hexp. apply verifyToken_hit; [assumption|].
    rewrite <- Hres. apply checkCache_fresh; [assumption..|].
    intros _ e He. apply Hexp. now rewrite <- Hres.
  - intros Hwhy.
    assert (Hc : checkCache s (elapse dt w1) = (None, evicted s (elapse dt w1))).
    { apply (checkCache_evicts s _ c Hin').
      destruct Hwhy as [Hold | (e & He & Hpast)]; [now left|right].
      rewrite Hres. eauto. }
    split; [apply lookup_delete_eq|].
    rewrite (verifyToken_fallthrough st' s _ _ Hs Hc).
    split; [reflexivity|]. now rewrite queryAndCache_one_query.
Qed.

(** The rows on which [judge] says valid: a first row that is not
    inactive and not expired, and the result is the valid result of that
    row. *)
Lemma judge_valid (rows : list TokenRecord) (now : Z) :
  isValid (judge rows now) = true ->
  exists r rest, rows = r :: rest /\ judge rows now = tokenValid r /\
                 is_active r <> Some false /\
                 (forall e, expires_at r = Some e -> now <= e).
Proof.
  unfold judge. destruct rows as [|r rest]; [discriminate|].
  unfold is_active_false, expired_at.
  intros H. exists r, rest. split; [reflexivity|].
  destruct (is_active r) as [[|]|] eqn:Hact; try discriminate H.
  all: destruct (expires_at r) as [t|] eqn:Hexp.
  all: try (destruct (t <? now) eqn:Hlt; [discriminate H|]).
  all: split; [reflexivity|]; split; [discriminate|].
  all: intros e He; inversion He; subst; now apply Z.ltb_ge.
Qed.

(** Where a valid result comes from: the cache, with the world left as it
    was, or the first row the store returned, in which case it is cached. *)
Lemma verifyToken_valid_origin (st : Store) (token : JsValue) (w w' : World)
      (r : VerifyResult) :
  verifyToken st token w = (Returns r, w') -> isValid r = true ->
  (w' = w /\
   exists s c, token = VStr s /\ tokenCache w !! s = Some c /\ result c = r) \/
  (exists s rec rest,
      token = VStr s /\ rows_for st s = Returns (rec :: rest) /\
      r = tokenValid rec /\
      storeQueries w' = S (storeQueries w) /\
      tokenCache w' =
        <[s := {| result := r; cachedAt := clock w' |}]>
          (delete s (tokenCache w))).
Proof.
  intros Hv Hok.
  destruct (token_cases token) as [(s & -> & Hs) | Hn].
  2:{ rewrite verifyToken_not_a_token in Hv by assumption.
      inversion Hv; subst; discriminate Hok. }
  destruct (checkCache_cases s w)
    as [(c & Hin & Hc) | (w1 & Hc & Hcache & Hclock & Hq)].
  - rewrite (verifyToken_hit st s w w (result c) Hs Hc) in Hv.
    inversion Hv; subst. left. eauto 6.
  - rewrite (verifyToken_fallthrough st s w w1 Hs Hc), queryAndCache_eq in Hv.
    destruct (rows_for st s) as [rows|e] eqn:Hrows.
    2:{ inversion Hv; subst; discriminate Hok. }
    cbv zeta in Hv.
    destruct (isValid (judge rows (clock w1 + latency st))) eqn:Hj;
      inversion Hv; subst; [|congruence].
    destruct (judge_valid _ _ Hj) as (rec & rest & -> & Hrec & _).
    right. exists s, rec, rest. split; [reflexivity|].
    split; [exact Hrows|]. split; [exact Hrec|]. cbn.
    rewrite Hq, Hcache. auto.
Qed.

(** The cache holds only results built from records when it is empty,
    and every call of [verifyToken] keeps it so, whatever it returns. *)
Lemma cached_from_records_empty (w : World) :
  tokenCache w = ∅ -> cached_from_records w.
Proof.
  intros Hempty k c Hk. rewrite Hempty, lookup_empty in Hk. discriminate Hk.
Qed.

Lemma verifyToken_keeps_records (st : Store) (token : JsValue) (w : World) :
  cached_from_records w -> cached_from_records (snd (verifyToken st token w)).
Proof.
  intros Hinv.
  destruct (verifyToken_effect st token w)
    as [(r & Hv) | (s & r & w' & -> & Hs & Hv & _ & _ & Hcache)];
    rewrite Hv; cbn [snd]; [exact Hinv|].
  destruct (isValid r) eqn:Hok.
  - destruct (verifyToken_valid_origin st (VStr s) w w' r Hv Hok)
      as [(-> & _) | (s' & rec & rest & Hs' & _ & Hrec & _ & _)];
      [exact Hinv|].
    intros k c Hk. rewrite Hcache in Hk.
    destruct (decide (s = k)) as [->|Hne].
    + rewrite lookup_insert_eq in Hk. inversion Hk; subst c. cbn. eauto.
    + rewrite lookup_insert_ne in Hk by assumption.
      apply lookup_delete_Some in Hk. eapply Hinv, Hk.
  - intros k c Hk. rewrite Hcache in Hk.
    apply lookup_delete_Some in Hk. eapply Hinv, Hk.
Qed.

(** C5.  Let the cache hold only results built from records (as it does
    from an empty cache on), and let a verification succeed.  Then the
    returned result is the valid result of a record, the cache holds it
    under the token, and when the call went to the store that record is
    the row the store returned and [cachedAt] is the time of the call.  A
    later call that comes within the TTL of the entry, that record's own
    [expires_at] being absent or not yet passed, returns the cached result
    and leaves the world, query counter included, as it was.  A later call
    that comes when [now - cachedAt >= TTL], or when that record's own
    [expires_at] has passed, deletes the entry and goes on to the store: it
    is the store path run on the cache without the entry, and it issues
    exactly one query. *)
Theorem cached_until_ttl_or_expiry (st st' : Store) (token : JsValue)
        (w0 w1 : World) (r : VerifyResult) (dt : Z) :
  cached_from_records w0 ->
  verifyToken st token w0 = (Returns r, w1) -> isValid r = true ->
  exists s c rec,
    token = VStr s /\ tokenCache w1 !! s = Some c /\ result c = r /\
    r = tokenValid rec /\
    (storeQueries w1 = S (storeQueries w0) ->
     (exists rest, rows_for st s = Returns (rec :: rest)) /\
     cachedAt c = clock w1) /\
    cached_from_records w1 /\
    let w := elapse dt w1 in
    (clock w - cachedAt c < CACHE_TTL ->
     (forall e, expires_at rec = Some e -> clock w <= e) ->
       verifyToken st' token w = (Returns (tokenValid rec), w)) /\
    (CACHE_TTL <= clock w - cachedAt c \/
     (exists e, expires_at rec = Some e /\ e < clock w) ->
       tokenCache (evicted s w) !! s = None /\
       verifyToken st' token w = queryAndCache st' s (evicted s w) /\
       storeQueries (snd (verifyToken st' token w)) = S (storeQueries w)).
Proof.
  intros Hinv Hv Hok.
  destruct (cached_result_until_ttl_or_expiry st st' token w0 w1 r dt Hv Hok)
    as (s & c & -> & Hin & Hres & Hhit & Hevict).
  assert (Horigin :
            exists rec, r = tokenValid rec /\
              (storeQueries w1 = S (storeQueries w0) ->
               (exists rest, rows_for st s = Returns (rec :: rest)) /\
               cachedAt c = clock w1) /\
              cached_from_records w1).
  { destruct (verifyToken_valid_origin st (VStr s) w0 w1 r Hv Hok)
      as [(-> & s' & c' & Hs' & Hin' & Hres')
         | (s' & rec & rest & Hs' & Hrows & Hrec & Hq & Hcache)];
      inversion Hs'; subst s'.
    - destruct (Hinv s c' Hin') as (rec & Hrec).
      exists rec. split; [congruence|]. split; [lia|exact Hinv].
    - exists rec. split; [exact Hrec|]. split.
      + intros _. split; [eauto|].
        rewrite Hcache, lookup_insert_eq in Hin. now inversion Hin.
      + intros k c' Hk. rewrite Hcache in Hk.
        destruct (decide (s = k)) as [->|Hne].
        * rewrite lookup_insert_eq in Hk. inversion Hk; subst c'. cbn. eauto.
        * rewrite lookup_insert_ne in Hk by assumption.
          apply lookup_delete_Some in Hk. eapply Hinv, Hk. }
  destruct Horigin as (rec & Hrec & Hfetch & Hinv1).
  assert (Hexp : expiresAt r = expires_at rec) by (rewrite Hrec; reflexivity).
  exists s, c, rec. split; [reflexivity|]. split; [exact Hin|].
  split; [exact Hres|]. split; [exact Hrec|]. split; [exact Hfetch|].
  split; [exact Hinv1|]. cbv zeta in Hhit, Hevict |- *. split.
  - intros Hage Hfut. rewrite <- Hrec. apply Hhit; [exact Hage|].
    intros e He. apply Hfut. now rewrite <- Hexp.
  - intros Hwhy. apply Hevict.
    destruct Hwhy as [Hold | (e & He & Hpast)]; [now left|right].
    exists e. split; [now rewrite Hexp|exact Hpast].
Qed.

(** C9 (as the code has it).  A cache entry within the TTL whose result is
    invalid is returned as it is: no store query, no change to the cache. *)
Theorem cached_negative_is_returned (st : Store) (s : string) (w : World)
        (c : CacheEntry) :
  s <> "" -> tokenCache w !! s = Some c ->
  isValid (result c) = false -> clock w - cachedAt c < CACHE_TTL ->
  verifyToken st (VStr s) w = (Returns (result c), w).
Proof.
  intros Hs Hin Hbad Hage. apply verifyToken_hit; [assumption|].
  apply checkCache_fresh; [assumption..|]. congruence.
Qed.

(** C2 (as the code has it).  Each of the three credential-state rejections
    is answered with status 401 and a body whose [error] is the message of
    the verifier for that rejection: "Token not found" when the store has no
    record, "Token is inactive" when [is_active] is false, "Token has
    expired" when the record is not inactive and its [expires_at] is past. *)
Theorem rejection_is_401_with_its_own_message (st : Store) (s : string)
        (w w1 : World) (rows : list TokenRecord) :
  s <> "" -> checkCache s w = (None, w1) -> rows_for st s = Returns rows ->
  isValid (judge rows (clock w1 + latency st)) = false ->
  exists msg,
    fst (handler st (VStr s) w) =
      Respond {| statusCode := 401; body_error := msg; body_message := None |} /\
    (rows = [] /\ msg = "Token not found" \/
     (exists r rest, rows = r :: rest /\ is_active r = Some false /\
                     msg = "Token is inactive") \/
     (exists r rest t, rows = r :: rest /\ is_active r <> Some false /\
                       expires_at r = Some t /\ t < clock w1 + latency st /\
                       msg = "Token has expired")).
Proof.
  intros Hs Hc Hrows Hbad.
  rewrite handler_string by assumption.
  rewrite (verifyToken_fallthrough st s w w1 Hs Hc), queryAndCache_eq, Hrows.
  cbv zeta. rewrite Hbad. cbn [fst].
  revert Hbad. unfold judge, is_active_false, expired_at.
  destruct rows as [|r rest].
  - intros _. eexists. split; [reflexivity|]. now left.
  - destruct (is_active r) as [[|]|] eqn:Hact.
    2:{ intros _. eexists. split; [reflexivity|]. right; left. eauto. }
    all: destruct (expires_at r) as [t|] eqn:Ht; [|discriminate];
      destruct (t <? clock w1 + latency st) eqn:Hlt; [|discriminate];
      intros _; eexists; (split; [reflexivity|]); right; right;
      exists r, rest, t; apply Z.ltb_lt in Hlt;
      repeat split; auto; congruence.
Qed.

(** C10.  A record that is found and rejected (inactive or expired) gives a
    result whose [userId] is the record's [user_id]; the results for a
    token that is absent or not a string, for a token with no record, and
    for a store error all have [userId = null]. *)
Theorem rejected_record_keeps_owner (st : Store) :
  (forall s w w1 r rest v,
      s <> "" -> checkCache s w = (None, w1) ->
      rows_for st s = Returns (r :: rest) ->
      fst (verifyToken st (VStr s) w) = Returns v -> isValid v = false ->
      userId v = Some (user_id r) /\
      (error v = Some "Token is inactive" \/
       error v = Some "Token has expired")) /\
  (forall token w,
      (forall s, token = VStr s -> s = "") ->
      exists v, fst (verifyToken st token w) = Returns v /\
                userId v = None /\ error v = Some "Token is required") /\
  (forall s w w1,
      s <> "" -> checkCache s w = (None, w1) -> rows_for st s = Returns [] ->
      exists v, fst (verifyToken st (VStr s) w) = Returns v /\
                userId v = None /\ error v = Some "Token not found") /\
  (forall s w w1 e,
      s <> "" -> checkCache s w = (None, w1) -> rows_for st s = Throws e ->
      exists v, fst (verifyToken st (VStr s) w) = Returns v /\
                userId v = None /\
                error v = Some "Token verification failed").
Proof.
  split; [|split; [|split]].
  - intros s w w1 r rest v Hs Hc Hrows.
    rewrite (verifyToken_fallthrough st s w w1 Hs Hc), queryAndCache_eq, Hrows.
    cbv zeta. cbn [fst]. intros Hv Hbad. inversion Hv; subst v. clear Hv.
    revert Hbad. unfold judge.
    destruct (is_active_false r); [now split; [|left]|].
    destruct (expired_at r _); [now split; [|right]|discriminate].
  - intros token w Hn. exists tokenRequired.
    rewrite verifyToken_not_a_token by assumption. auto.
  - intros s w w1 Hs Hc Hrows. exists tokenNotFound.
    rewrite (verifyToken_fallthrough st s w w1 Hs Hc), queryAndCache_eq, Hrows.
    auto.
  - intros s w w1 e Hs Hc Hrows. exists verificationFailed.
    rewrite (verifyToken_fallthrough st s w w1 Hs Hc), queryAndCache_eq, Hrows.
    auto.
Qed.

End VerifierFacts.

(* ===================================================================== *)
(** ** The verifier on concrete requests                                  *)
(* ===================================================================== *)

(** C1.  Token [tok_abc], nothing cached, store unreachable.  [verifyToken]
    returns the generic failure after one query and writes nothing to the
    cache; the handler answers with status 401 and that message, the same
    status it uses for a rejected token, not with its 503 response. *)
Theorem store_error_answered_with_401 :
  verifyToken ttl_default store_down (VStr "tok_abc") cold
    = (Returns verificationFailed, queried store_down cold) /\
  error verificationFailed = Some "Token verification failed" /\
  tokenCache (queried store_down cold) = tokenCache cold /\
  handler ttl_default store_down (VStr "tok_abc") cold
    = (Respond {| statusCode := 401;
                  body_error := "Token verification failed";
                  body_message := None |},
       queried store_down cold).
Proof.
  destruct (store_error_path ttl_default store_down "tok_abc" cold cold
              "connect ECONNREFUSED 10.0.0.5:5432")
    as [Hv Hh]; [discriminate | reflexivity | reflexivity |].
  auto.
Qed.

(** C2, refuted as stated.  The same request is answered with three
    different bodies according to the reason of the rejection. *)
Lemma rejections_tell_the_reason :
  fst (handler ttl_default store_empty (VStr "tok_abc") cold)
    = Respond {| statusCode := 401; body_error := "Token not found";
                 body_message := None |} /\
  fst (handler ttl_default (store_with rec_inactive) (VStr "tok_abc") cold)
    = Respond {| statusCode := 401; body_error := "Token is inactive";
                 body_message := None |} /\
  fst (handler ttl_default (store_with rec_expired) (VStr "tok_abc") cold)
    = Respond {| statusCode := 401; body_error := "Token has expired";
                 body_message := None |} /\
  fst (handler ttl_default store_empty (VStr "tok_abc") cold)
    <> fst (handler ttl_default (store_with rec_inactive) (VStr "tok_abc") cold).
Proof.
  repeat split; try reflexivity. vm_compute. discriminate.
Qed.

Lemma rejection_is_401_with_its_own_message_witness :
  exists msg,
    fst (handler ttl_default (store_with rec_expired) (VStr "tok_abc") cold)
      = Respond {| statusCode := 401; body_error := msg;
                   body_message := None |} /\
    msg = "Token has expired".
Proof.
  assert (Hne : "tok_abc" <> "") by discriminate.
  destruct (rejection_is_401_with_its_own_message ttl_default
              (store_with rec_expired) "tok_abc" cold cold [rec_expired]
              Hne eq_refl eq_refl eq_refl)
    as (msg & Hresp & Hwhy).
  exists msg. split; [exact Hresp|].
  destruct Hwhy as [(Hnil & _) | [(r & rest & Hrows & Hina & _)
                                 | (r & rest & t & _ & _ & _ & _ & Hmsg)]].
  - discriminate Hnil.
  - inversion Hrows; subst. discriminate Hina.
  - exact Hmsg.
Defined.

Lemma negative_results_never_cached_witness :
  let first := verifyToken ttl_default store_empty (VStr "tok_gone") cold in
  let second := verifyToken ttl_default store_empty (VStr "tok_gone")
                            (elapse 1000 (snd first)) in
  storeQueries (snd first) = 1%nat /\ storeQueries (snd second) = 2%nat /\
  tokenCache (snd second) = ∅.
Proof.
  destruct (negative_results_never_cached ttl_default store_empty)
    as (_ & _ & H).
  assert (Hne : "tok_gone" <> "") by discriminate.
  specialize (H store_empty "tok_gone" cold 1000 Hne eq_refl eq_refl eq_refl).
  cbv zeta in H |- *.
  destruct H as (_ & H1 & _ & H2 & H3). auto.
Defined.

Lemma record_decision_order_witness :
  fst (verifyToken ttl_default (store_with rec_inactive_expired)
                   (VStr "tok_abc") cold)
    = Returns (tokenInactive rec_inactive_expired) /\
  tokenCache (snd (verifyToken ttl_default (store_with rec_inactive_expired)
                               (VStr "tok_abc") cold)) = ∅.
Proof.
  pose proof (record_decision_order ttl_default
                (store_with rec_inactive_expired) "tok_abc" cold cold
                rec_inactive_expired []
                ltac:(discriminate) eq_refl eq_refl) as H.
  cbv zeta in H.
  destruct H as [H _].
  destruct (H eq_refl) as (H1 & _ & _ & H2). auto.
Defined.

Lemma cached_until_ttl_or_expiry_witness :
  let first := verifyToken ttl_default (store_with rec_expiring_soon)
                           (VStr "tok_abc") cold in
  (* one second later: served from the cache, store not asked *)
  verifyToken ttl_default store_down (VStr "tok_abc") (elapse 1000 (snd first))
    = (Returns (tokenValid rec_expiring_soon), elapse 1000 (snd first)) /\
  (* two minutes later, inside the TTL but past the record's own expiry:
     the entry is dropped and the store, asked once, says expired *)
  120000 < ttl_default /\
  fst (verifyToken ttl_default (store_with rec_expiring_soon) (VStr "tok_abc")
                   (elapse 120000 (snd first)))
    = Returns (tokenExpired rec_expiring_soon) /\
  storeQueries (snd (verifyToken ttl_default (store_with rec_expiring_soon)
                                 (VStr "tok_abc")
                                 (elapse 120000 (snd first)))) = 2%nat /\
  (* five minutes later: the TTL has run out, one fresh query *)
  storeQueries (snd (verifyToken ttl_default store_down (VStr "tok_abc")
                                 (elapse 300000 (snd first)))) = 2%nat.
Proof.
  cbv zeta.
  assert (Hcold : cached_from_records cold).
  { intros k c Hk. vm_compute in Hk. discriminate Hk. }
  assert (Hrec : forall st' dt,
    exists c,
      cachedAt c = 1700000000020 /\
      (let w := elapse dt (snd (verifyToken ttl_default
                                  (store_with rec_expiring_soon)
                                  (VStr "tok_abc") cold)) in
       (clock w - cachedAt c < ttl_default ->
        (forall e, expires_at rec_expiring_soon = Some e -> clock w <= e) ->
        verifyToken ttl_default st' (VStr "tok_abc") w
        = (Returns (tokenValid rec_expiring_soon), w)) /\
       (ttl_default <= clock w - cachedAt c \/
        (exists e, expires_at rec_expiring_soon = Some e /\ e < clock w) ->
        tokenCache (evicted "tok_abc" w) !! "tok_abc" = None /\
        verifyToken ttl_default st' (VStr "tok_abc") w
        = queryAndCache st' "tok_abc" (evicted "tok_abc" w) /\
        storeQueries (snd (verifyToken ttl_default st' (VStr "tok_abc") w))
        = S (storeQueries w)))).
  { intros st' dt.
    pose proof (cached_until_ttl_or_expiry ttl_default
                  (store_with rec_expiring_soon) st' (VStr "tok_abc") cold
                  (snd (verifyToken ttl_default (store_with rec_expiring_soon)
                                    (VStr "tok_abc") cold))
                  (tokenValid rec_expiring_soon) dt Hcold eq_refl eq_refl)
      as (s & c & rec & Hs & Hin & Hres & Hr & Hfetch & _ & Hlater).
    inversion Hs; subst s.
    destruct (Hfetch eq_refl) as ((rest & Hrows) & Hat).
    assert (rec = rec_expiring_soon) by (cbn in Hrows; congruence).
    subst rec. exists c. split; [exact Hat|exact Hlater]. }
  split; [|split; [|split; [|split]]].
  - destruct (Hrec store_down 1000) as (c & Hat & Hhit & _).
    cbv zeta in Hhit. apply Hhit.
    + rewrite Hat. vm_compute. reflexivity.
    + intros e He. inversion He; subst e. vm_compute. discriminate.
  - vm_compute. reflexivity.
  - destruct (Hrec (store_with rec_expiring_soon) 120000)
      as (c & Hat & _ & Hev).
    cbv zeta in Hev.
    destruct Hev as (_ & Hq & _).
    { right. exists 1700000060000. split; [reflexivity|].
      vm_compute. reflexivity. }
    rewrite Hq. reflexivity.
  - destruct (Hrec (store_with rec_expiring_soon) 120000)
      as (c & Hat & _ & Hev).
    cbv zeta in Hev.
    destruct Hev as (_ & _ & Hq).
    { right. exists 1700000060000. split; [reflexivity|].
      vm_compute. reflexivity. }
    rewrite Hq. reflexivity.
  - destruct (Hrec store_down 300000) as (c & Hat & _ & Hev).
    cbv zeta in Hev.
    destruct Hev as (_ & _ & Hq).
    { left. rewrite Hat. vm_compute. discriminate. }
    rewrite Hq. reflexivity.
Defined.

(** C9, refuted as stated.  The cache holds, one second old, a negative
    result for [tok_abc]; the store by now has an active record for it.
    [verifyToken] returns the cached negative result and asks the store
    nothing; a query would have given the valid result. *)
Lemma cached_negative_is_a_hit :
  verifyToken ttl_default (store_with rec_active) (VStr "tok_abc")
              negative_cached
    = (Returns (tokenInactive rec_inactive), negative_cached) /\
  storeQueries negative_cached = 0%nat /\
  fst (queryAndCache (store_with rec_active) "tok_abc" negative_cached)
    = Returns (tokenValid rec_active).
Proof.
  repeat split; reflexivity.
Qed.

Lemma cached_negative_is_returned_witness :
  verifyToken ttl_default store_down (VStr "tok_abc") negative_cached
    = (Returns (tokenInactive rec_inactive), negative_cached).
Proof.
  apply (cached_negative_is_returned ttl_default store_down "tok_abc"
           negative_cached
           {| result := tokenInactive rec_inactive;
              cachedAt := 1699999999000 |});
    [discriminate | reflexivity | reflexivity | reflexivity].
Defined.

Lemma rejected_record_keeps_owner_witness :
  userId (tokenExpired rec_expired) = Some "u1" /\
  (exists v, fst (verifyToken ttl_default (store_with rec_expired)
                              (VStr "") cold) = Returns v /\
             userId v = None).
Proof.
  destruct (rejected_record_keeps_owner ttl_default (store_with rec_expired))
    as (Hfound & Hbad & _ & _).
  split.
  - apply (Hfound "tok_abc" cold cold rec_expired [] (tokenExpired rec_expired));
      [discriminate | reflexivity | reflexivity | reflexivity | reflexivity].
  - destruct (Hbad (VStr "") cold) as (v & Hv & Hu & _).
    + intros s Hs. now inversion Hs.
    + eauto.
Defined.

(* ===================================================================== *)
(** ** Facts about the secret provider                                    *)
(* ===================================================================== *)

Lemma filter_nil_iff {A} (f : A -> bool) (l : list A) :
  List.filter f l = [] <-> (forall x, In x l -> f x = false).
Proof.
  induction l as [|a l IH]; simpl.
  - split; [intros _ x []|reflexivity].
  - destruct (f a) eqn:Ha.
    + split; [discriminate|]. intros H.
      rewrite (H a) in Ha by now left. discriminate.
    + rewrite IH. split.
      * intros H x [<-|Hx]; auto.
      * intros H x Hx. apply H. now right.
Qed.

Lemma missingFields_nil_iff (secret : gmap string JsValue) :
  missingFields secret = [] <->
  (forall f, In f requiredFields -> truthy (field secret f) = true).
Proof.
  unfold missingFields. rewrite filter_nil_iff. split; intros H f Hf.
  - specialize (H f Hf). now apply negb_false_iff in H.
  - apply negb_false_iff. now apply H.
Qed.

Lemma validate_cases (secret : gmap string JsValue) :
  validate secret =
  match missingFields secret with
  | [] =>
      Returns {| host := field secret "host";
                 port := or_else (field secret "port") (VNum 5432);
                 database := field secret "database";
                 user := field secret "username";
                 password := field secret "password" |}
  | _ :: _ =>
      Throws (String.append "Secret is missing required fields: "
                            (join ", " (missingFields secret)))
  end.
Proof.
  unfold validate. now destruct (missingFields secret).
Qed.

Lemma resume_keeps_count (reply : SecretReply) (m : SecretsManager.State) :
  secretsRequested (snd (getDatabaseCredentials_resume reply m))
  = secretsRequested m.
Proof.
  unfold getDatabaseCredentials_resume. now destruct (resolve reply).
Qed.

Lemma resume_outcome (reply : SecretReply) (m : SecretsManager.State) :
  fst (getDatabaseCredentials_resume reply m) = resolve reply.
Proof.
  unfold getDatabaseCredentials_resume. now destruct (resolve reply).
Qed.

(** C8 (as the code has it).  For a parsed secret, resolution fails exactly
    when one of [host], [port], [database], [username], [password] is
    absent from the payload or falsy in it (null, false, 0, the empty
    string), and the error then names the fields concerned; when all five
    are truthy it returns the connection parameters, the payload's
    [username] being handed on as [user], and memoizes them. *)
Theorem secret_fails_iff_field_falsy (secret : gmap string JsValue)
        (m : SecretsManager.State) :
  ((exists msg,
       fst (getDatabaseCredentials_resume (Parsed secret) m) = Throws msg) <->
   (exists f, In f ["host"; "port"; "database"; "username"; "password"] /\
              truthy (field secret f) = false)) /\
  (forall msg,
     fst (getDatabaseCredentials_resume (Parsed secret) m) = Throws msg ->
     msg = String.append "Failed to retrieve database credentials: "
             (String.append "Secret is missing required fields: "
                            (join ", " (missingFields secret)))) /\
  ((forall f, In f ["host"; "port"; "database"; "username"; "password"] ->
              truthy (field secret f) = true) ->
   let c := {| host := field secret "host";
               port := field secret "port";
               database := field secret "database";
               user := field secret "username";
               password := field secret "password" |} in
   getDatabaseCredentials_resume (Parsed secret) m =
     (Returns c, {| cachedCredentials := Some c;
                    secretsRequested := secretsRequested m |})).
Proof.
  pose proof (missingFields_nil_iff secret) as Hnil.
  rewrite resume_outcome.
  unfold getDatabaseCredentials_resume, resolve. rewrite validate_cases.
  change ["host"; "port"; "database"; "username"; "password"]
    with requiredFields.
  split; [|split].
  - split.
    + intros [msg Hmsg].
      destruct (missingFields secret) as [|f rest] eqn:Hm; [discriminate|].
      assert (Hin : In f (missingFields secret)) by (rewrite Hm; now left).
      unfold missingFields in Hin. apply filter_In in Hin as [Hf Hfalsy].
      exists f. split; [assumption|]. now apply negb_true_iff.
    + intros (f & Hf & Hfalsy).
      destruct (missingFields secret) as [|g rest] eqn:Hm; [|eauto].
      destruct Hnil as [Hall _]. rewrite (Hall eq_refl f Hf) in Hfalsy.
      discriminate.
  - intros msg. destruct (missingFields secret); [discriminate|].
    intros H. now inversion H.
  - intros Hall. destruct Hnil as [_ Hnil]. rewrite (Hnil Hall).
    unfold or_else. rewrite (Hall "port") by (simpl; auto). reflexivity.
Qed.

(** C8, refuted as stated.  A payload that has all of [host], [port],
    [database], [user], [password] is rejected because it has no
    [username]; and a payload that has every field is rejected because its
    password is the empty string. *)
Lemma secret_with_all_fields_rejected :
  (forall f, In f ["host"; "port"; "database"; "user"; "password"] ->
             is_Some (secret_user !! f)) /\
  fst (getDatabaseCredentials_resume (Parsed secret_user) (secrets fresh)) =
    Throws "Failed to retrieve database credentials: Secret is missing required fields: username" /\
  (forall f, In f ["host"; "port"; "database"; "user"; "username"; "password"] ->
             is_Some (secret_blank_password !! f)) /\
  fst (getDatabaseCredentials_resume (Parsed secret_blank_password)
                                     (secrets fresh)) =
    Throws "Failed to retrieve database credentials: Secret is missing required fields: password".
Proof.
  repeat split; try reflexivity.
  - intros f Hf. simpl in Hf.
    repeat (destruct Hf as [<-|Hf]; [vm_compute; eauto|]). destruct Hf.
  - intros f Hf. simpl in Hf.
    repeat (destruct Hf as [<-|Hf]; [vm_compute; eauto|]). destruct Hf.
Qed.

Lemma secret_fails_iff_field_falsy_witness :
  fst (getDatabaseCredentials_resume (Parsed secret_username) (secrets fresh))
  = Returns {| host := VStr "db.internal"; port := VNum 5432;
               database := VStr "app"; user := VStr "svc";
               password := VStr "pw" |}.
Proof.
  destruct (secret_fails_iff_field_falsy secret_username (secrets fresh))
    as (_ & _ & H).
  cbv zeta in H. rewrite H; [reflexivity|].
  intros f Hf. simpl in Hf.
  repeat (destruct Hf as [<-|Hf]; [reflexivity|]). destruct Hf.
Defined.

(* ===================================================================== *)
(** ** Facts about the pooled store connector                             *)
(* ===================================================================== *)

Ltac state_simpl :=
  cbn [fst snd pool isInitializing initPromise secrets inFlight
       nextPromise poolsConstructed cachedCredentials secretsRequested
       set_pool set_guard set_secrets set_inFlight
       count_promise count_pool
       construct catch_init getPool_resume] in *.

Section PoolFacts.

Variable secretName : option string.

Local Abbreviation getPool := (ConnectionPool.getPool secretName).
Local Abbreviation step := (ConnectionPool.step secretName).
Local Abbreviation run := (ConnectionPool.run secretName).

(** While an initialization is under way a caller is handed its promise and
    nothing changes. *)
Lemma getPool_joins (p : PromiseId) (ph : Phase) (s : State) :
  attempt p ph s -> getPool s = (s, Got (Pending p)).
Proof.
  intros (Hpool & Hinit & Hprom & _). unfold ConnectionPool.getPool.
  now rewrite Hpool, Hinit, Hprom.
Qed.

(** The phase and the state in which [initializePool] is left when it is
    called in the idle state [s]. *)
Lemma initializePool_start_cases (s : State) :
  initializePool_start secretName (count_promise s) =
  if env_unset secretName then
    (Settling (Rejected "DB_SECRET_NAME environment variable is not set"),
     set_pool None (count_promise s))
  else
    match cachedCredentials (secrets s) with
    | Some c => (AwaitCredentials (Some c),
                 set_secrets (secrets s) (count_promise s))
    | None =>
        (AwaitCredentials None,
         set_secrets {| cachedCredentials := None;
                        secretsRequested := S (secretsRequested (secrets s)) |}
                     (count_promise s))
    end.
Proof.
  unfold initializePool_start, getDatabaseCredentials_start. state_simpl.
  destruct (env_unset secretName) eqn:Hname; [reflexivity|].
  destruct (cachedCredentials (secrets s)) as [c|] eqn:Hc; [reflexivity|].
  reflexivity.
Qed.

Lemma getPool_from_idle (s : State) :
  idle s ->
  getPool s =
  (let (ph, s1) := initializePool_start secretName (count_promise s) in
   set_guard true (Some (nextPromise s))
     (set_inFlight {[ nextPromise s := ph ]} s1),
   Got (Pending (nextPromise s))).
Proof.
  intros (Hpool & Hinit & Hprom & Hfl). unfold ConnectionPool.getPool.
  rewrite Hpool, Hinit, initializePool_start_cases.
  destruct (env_unset secretName).
  - state_simpl. now rewrite Hfl, insert_empty.
  - destruct (cachedCredentials (secrets s));
      state_simpl; now rewrite Hfl, insert_empty.
Qed.

(** From the idle state a caller starts the initialization. *)
Lemma getPool_starts (s : State) :
  idle s ->
  snd (getPool s) = Got (Pending (nextPromise s)) /\
  exists ph, attempt (nextPromise s) ph (fst (getPool s)) /\
             counts s ph (fst (getPool s)).
Proof.
  intros Hidle. rewrite (getPool_from_idle s Hidle).
  destruct Hidle as (Hpool & Hinit & Hprom & Hfl).
  rewrite initializePool_start_cases.
  destruct (env_unset secretName).
  - split; [reflexivity|]. eexists. unfold attempt, counts. state_simpl.
    repeat split; auto.
  - destruct (cachedCredentials (secrets s)) as [c|] eqn:Hcreds.
    + split; [reflexivity|]. eexists. unfold attempt, counts. state_simpl.
      repeat split; auto.
    + split; [reflexivity|]. eexists. unfold attempt, counts. state_simpl.
      repeat split; auto.
Qed.

(** One turn of the event loop, other than the resumption of getPool for
    the initialization under way, leaves that initialization the only one,
    moves it along at most one phase, and hands its promise to any caller. *)
Lemma step_attempt (s0 : State) (p : PromiseId) (ph : Phase) (s : State)
      (ev : Event) :
  attempt p ph s -> counts s0 ph s -> ev <> InitSettled p ->
  exists ph', attempt p ph' (fst (step ev s)) /\
              counts s0 ph' (fst (step ev s)) /\
              snd (step ev s) = match ev with
                                | Call => Got (Pending p)
                                | _ => Quiet
                                end.
Proof.
  intros Hatt Hcnt Hev.
  destruct ev as [|q reply|q failure|q|q|]; cbn [ConnectionPool.step].
  - rewrite (getPool_joins p ph s Hatt). exists ph. auto.
  - destruct Hatt as (Hpool & Hinit & Hprom & Hfl & Hnext).
    rewrite Hfl. destruct (decide (q = p)) as [->|Hne].
    2:{ rewrite lookup_singleton_ne by congruence.
        exists ph. unfold attempt. auto 10. }
    rewrite lookup_singleton_eq.
    destruct ph as [[c|]|np|r]; try (eexists; unfold attempt; eauto 10; fail).
    destruct Hcnt as (Hc0 & Hpc & Hsr).
    pose proof (resume_keeps_count reply (secrets s)) as Hkeep.
    destruct (getDatabaseCredentials_resume reply (secrets s))
      as [[c|msg] m]; cbn [snd] in Hkeep.
    + exists (AwaitConnect (poolsConstructed s)).
      unfold attempt, counts. state_simpl.
      rewrite ?Hfl, insert_singleton_eq, Hc0, Hpc, Hkeep, Hsr. auto 10.
    + exists (Settling (Rejected msg)).
      unfold attempt, counts. state_simpl.
      rewrite ?Hfl, insert_singleton_eq, Hpc, Hkeep, Hsr.
      repeat split; auto; lia.
  - destruct Hatt as (Hpool & Hinit & Hprom & Hfl & Hnext).
    rewrite Hfl. destruct (decide (q = p)) as [->|Hne].
    2:{ rewrite lookup_singleton_ne by congruence.
        exists ph. unfold attempt. auto 10. }
    rewrite lookup_singleton_eq.
    destruct ph as [[c|]|np|r]; try (eexists; unfold attempt; eauto 10; fail).
    destruct Hcnt as (Hnp & Hpc & Hsr).
    destruct failure as [msg|].
    + exists (Settling (Rejected msg)).
      unfold attempt, counts. state_simpl.
      rewrite ?Hfl, insert_singleton_eq, Hpc, Hsr.
      repeat split; auto; destruct (cachedCredentials (secrets s0)); lia.
    + exists (Settling (Fulfilled np)).
      unfold attempt, counts. state_simpl.
      rewrite ?Hfl, insert_singleton_eq. auto 10.
  - destruct Hatt as (Hpool & Hinit & Hprom & Hfl & Hnext).
    rewrite Hfl. destruct (decide (q = p)) as [->|Hne].
    2:{ rewrite lookup_singleton_ne by congruence.
        exists ph. unfold attempt. auto 10. }
    rewrite lookup_singleton_eq.
    destruct ph as [[c|]|np|r]; try (eexists; unfold attempt; eauto 10; fail).
    destruct Hcnt as (Hc0 & Hpc & Hsr).
    exists (AwaitConnect (poolsConstructed s)).
    unfold attempt, counts. state_simpl.
    rewrite ?Hfl, insert_singleton_eq, Hc0, Hpc, Hsr. auto 10.
  - destruct Hatt as (Hpool & Hinit & Hprom & Hfl & Hnext).
    rewrite Hfl. rewrite lookup_singleton_ne by congruence.
    exists ph. unfold attempt. auto 10.
  - exists ph. destruct Hatt as (Hpool & Hinit & Hprom & Hfl & Hnext).
    unfold attempt. state_simpl. split; [auto 10|].
    split; [|reflexivity].
    destruct ph as [[c|]|np|[np|msg]]; exact Hcnt.
Qed.

Lemma run_cons (ev : Event) (sched : list Event) (s : State) :
  run (ev :: sched) s =
  (fst (run sched (fst (step ev s))),
   snd (step ev s) :: snd (run sched (fst (step ev s)))).
Proof.
  cbn [ConnectionPool.run].
  destruct (ConnectionPool.step secretName ev s) as [s1 o]. cbn [fst snd].
  destruct (ConnectionPool.run secretName sched s1) as [s2 os]. reflexivity.
Qed.

(** Any schedule that does not resume getPool for the initialization under
    way leaves it the only one; every caller in it is handed the same
    promise. *)
Lemma run_attempt (s0 : State) (p : PromiseId) (sched : list Event) :
  ~ In (InitSettled p) sched ->
  forall ph s, attempt p ph s -> counts s0 ph s ->
  exists ph', attempt p ph' (fst (run sched s)) /\
              counts s0 ph' (fst (run sched s)) /\
              handles (snd (run sched s)) = repeat (Pending p) (callers sched).
Proof.
  induction sched as [|ev sched IH]; intros Hno ph s Hatt Hcnt.
  - exists ph. auto.
  - rewrite run_cons. cbn [fst snd].
    assert (Hev : ev <> InitSettled p) by (intros ->; apply Hno; now left).
    destruct (step_attempt s0 p ph s ev Hatt Hcnt Hev)
      as (ph1 & Hatt1 & Hcnt1 & Hobs).
    destruct (IH (fun H => Hno (or_intror H)) ph1 _ Hatt1 Hcnt1)
      as (ph' & Hatt' & Hcnt' & Hh).
    exists ph'. split; [assumption|]. split; [assumption|].
    rewrite Hobs. destruct ev; cbn [callers handles repeat]; now rewrite ?Hh.
Qed.

(** The ways an initialization started from the idle state fails: no
    secret name, a secret that cannot be fetched, parsed or validated, and a
    connection test that is refused (with fresh or memoized credentials).
    Each leaves the promise rejected with the error concerned. *)
Lemma failure_is_rejection (s : State) :
  idle s ->
  let p := nextPromise s in
  (env_unset secretName = true ->
   inFlight (fst (run [Call] s)) !! p
     = Some (Settling
               (Rejected "DB_SECRET_NAME environment variable is not set"))) /\
  (env_unset secretName = false -> cachedCredentials (secrets s) = None ->
   forall reply msg, resolve reply = Throws msg ->
   inFlight (fst (run [Call; SecretReplies p reply] s)) !! p
     = Some (Settling (Rejected msg))) /\
  (env_unset secretName = false -> cachedCredentials (secrets s) = None ->
   forall reply c msg, resolve reply = Returns c ->
   inFlight (fst (run [Call; SecretReplies p reply;
                       ConnectSettles p (Some msg)] s)) !! p
     = Some (Settling (Rejected msg))) /\
  (env_unset secretName = false ->
   forall c msg, cachedCredentials (secrets s) = Some c ->
   inFlight (fst (run [Call; CredentialsReady p;
                       ConnectSettles p (Some msg)] s)) !! p
     = Some (Settling (Rejected msg))).
Proof.
  intros Hidle. cbv zeta.
  assert (Hcall : fst (step Call s) = fst (getPool s)) by reflexivity.
  rewrite (getPool_from_idle s Hidle), initializePool_start_cases in Hcall.
  repeat split.
  - intros Hname. rewrite Hname in Hcall.
    rewrite !run_cons. cbn [ConnectionPool.run fst snd].
    rewrite Hcall. state_simpl. apply lookup_singleton_eq.
  - intros Hname Hcreds reply msg Hreply. rewrite Hname, Hcreds in Hcall.
    rewrite !run_cons. cbn [ConnectionPool.run fst snd].
    rewrite Hcall. cbn [ConnectionPool.step]. state_simpl.
    rewrite lookup_singleton_eq.
    unfold getDatabaseCredentials_resume. rewrite Hreply. state_simpl.
    apply lookup_insert_eq.
  - intros Hname Hcreds reply c msg Hreply. rewrite Hname, Hcreds in Hcall.
    rewrite !run_cons. cbn [ConnectionPool.run fst snd].
    rewrite Hcall. cbn [ConnectionPool.step]. state_simpl.
    rewrite lookup_singleton_eq.
    unfold getDatabaseCredentials_resume. rewrite Hreply. state_simpl.
    rewrite lookup_insert_eq. state_simpl. apply lookup_insert_eq.
  - intros Hname c msg Hcreds. rewrite Hname, Hcreds in Hcall.
    rewrite !run_cons. cbn [ConnectionPool.run fst snd].
    rewrite Hcall. cbn [ConnectionPool.step]. state_simpl.
    rewrite lookup_singleton_eq. state_simpl.
    rewrite lookup_insert_eq. state_simpl. apply lookup_insert_eq.
Qed.

(** C6.  From the idle state, let a caller call [getPool()] and let any
    number of further callers call it while the initialization it started
    is under way, in any interleaving with the steps of that initialization
    (and with resets of [pool]).  Then every caller holds the same promise,
    [initializePool] has been called exactly once, at most one pool has been
    constructed and at most one secret requested; and once that
    initialization has succeeded, exactly one pool has been constructed,
    exactly one secret has been requested (none was memoized before), and
    resuming getPool makes that pool the singleton for everyone waiting. *)
Theorem single_flight_initialization (s : State) (sched : list Event) :
  idle s -> ~ In (InitSettled (nextPromise s)) sched ->
  let p := nextPromise s in
  let s' := fst (run (Call :: sched) s) in
  let obs := snd (run (Call :: sched) s) in
  handles obs = repeat (Pending p) (S (callers sched)) /\
  nextPromise s' = S p /\
  (poolsConstructed s' <= S (poolsConstructed s))%nat /\
  (secretsRequested (secrets s') <= S (secretsRequested (secrets s)))%nat /\
  (forall np,
      inFlight s' !! p = Some (Settling (Fulfilled np)) ->
      poolsConstructed s' = S (poolsConstructed s) /\
      (cachedCredentials (secrets s) = None ->
       secretsRequested (secrets s') = S (secretsRequested (secrets s))) /\
      snd (step (InitSettled p) s') = Settles p (Fulfilled np) /\
      pool (fst (step (InitSettled p) s')) = Some np).
Proof.
  intros Hidle Hno. cbv zeta. rewrite run_cons. cbn [fst snd].
  change (step Call s) with (getPool s).
  destruct (getPool_starts s Hidle) as (Hobs & ph & Hatt & Hcnt).
  destruct (run_attempt s (nextPromise s) sched Hno ph _ Hatt Hcnt)
    as (ph' & Hatt' & Hcnt' & Hh).
  set (s' := fst (run sched (fst (getPool s)))) in *.
  destruct Hatt' as (Hpool & Hinit & Hprom & Hfl & Hnext).
  split; [rewrite Hobs; cbn [handles repeat]; now rewrite Hh|].
  split; [exact Hnext|].
  assert (Hle : (poolsConstructed s' <= S (poolsConstructed s))%nat /\
                (secretsRequested (secrets s')
                 <= S (secretsRequested (secrets s)))%nat).
  { destruct ph' as [[c|]|np|[np|msg]]; cbn [counts] in Hcnt';
      try destruct (cachedCredentials (secrets s)); lia. }
  split; [apply Hle|]. split; [apply Hle|].
  intros np Hdone. rewrite Hfl, lookup_singleton_eq in Hdone.
  inversion Hdone; subst ph'. destruct Hcnt' as (Hnp & Hpc & Hsr).
  split; [exact Hpc|]. split; [intros Hc; now rewrite Hc in Hsr|].
  cbn [ConnectionPool.step]. rewrite Hfl, lookup_singleton_eq.
  split; reflexivity.
Qed.

(** C7.  If the initialization a caller started from the idle state has
    failed (for whatever reason: no secret name, secret unreadable or
    malformed, connection refused), then resuming getPool propagates the
    error to those waiting, leaves [pool] unset and clears the guard; and
    the next call of [getPool()] starts a new initialization, with a new
    promise, instead of handing back the failed one. *)
Theorem failed_initialization_is_retried (s : State) (sched : list Event)
        (msg : string) :
  idle s -> ~ In (InitSettled (nextPromise s)) sched ->
  let p := nextPromise s in
  let s1 := fst (run (Call :: sched) s) in
  inFlight s1 !! p = Some (Settling (Rejected msg)) ->
  let s2 := fst (step (InitSettled p) s1) in
  snd (step (InitSettled p) s1) = Settles p (Rejected msg) /\
  pool s2 = pool s /\
  idle s2 /\
  snd (getPool s2) = Got (Pending (S p)) /\
  nextPromise (fst (getPool s2)) = S (S p) /\
  exists ph, inFlight (fst (getPool s2)) = {[ S p := ph ]}.
Proof.
  intros Hidle Hno. cbv zeta. rewrite run_cons. cbn [fst snd].
  change (step Call s) with (getPool s).
  destruct (getPool_starts s Hidle) as (Hobs & ph & Hatt & Hcnt).
  destruct (run_attempt s (nextPromise s) sched Hno ph _ Hatt Hcnt)
    as (ph' & Hatt' & _ & _).
  set (s1 := fst (run sched (fst (getPool s)))) in *.
  destruct Hatt' as (Hpool & Hinit & Hprom & Hfl & Hnext).
  intros Hfailed. rewrite Hfl, lookup_singleton_eq in Hfailed.
  inversion Hfailed; subst ph'.
  cbn [ConnectionPool.step]. rewrite Hfl, lookup_singleton_eq.
  unfold getPool_resume. cbn [fst snd].
  set (s2 := set_guard false None (set_inFlight (delete _ _) s1)).
  assert (Hidle2 : idle s2).
  { unfold idle, s2. state_simpl. rewrite Hfl, delete_singleton_eq. auto. }
  assert (Hnext2 : nextPromise s2 = S (nextPromise s)) by exact Hnext.
  split; [reflexivity|].
  split; [destruct Hidle as (-> & _); apply Hidle2|].
  split; [exact Hidle2|].
  destruct (getPool_starts s2 Hidle2) as (Hobs2 & ph2 & Hatt2 & _).
  rewrite Hnext2 in Hobs2, Hatt2.
  destruct Hatt2 as (_ & _ & _ & Hfl2 & Hn2).
  split; [exact Hobs2|]. split; [exact Hn2|]. eauto.
Qed.

End PoolFacts.

Lemma single_flight_initialization_witness :
  let s' := fst (run secret_name_set (Call :: five_callers) fresh) in
  handles (snd (run secret_name_set (Call :: five_callers) fresh))
    = [Pending 0; Pending 0; Pending 0; Pending 0; Pending 0]%nat /\
  nextPromise s' = 1%nat /\
  poolsConstructed s' = 1%nat /\ secretsRequested (secrets s') = 1%nat /\
  pool (fst (step secret_name_set (InitSettled 0%nat) s')) = Some 0%nat.
Proof.
  assert (Hidle : idle fresh) by (repeat split; reflexivity).
  assert (Hno : ~ In (InitSettled (nextPromise fresh)) five_callers).
  { simpl. intros H. repeat (destruct H as [H|H]; [discriminate H|]).
    exact H. }
  pose proof (single_flight_initialization secret_name_set fresh
                five_callers Hidle Hno) as H.
  cbv zeta in H |- *.
  destruct H as (Hh & Hn & _ & _ & Hdone).
  destruct (Hdone 0%nat eq_refl) as (Hpc & Hsr & _ & Hp).
  split; [exact Hh|]. split; [exact Hn|]. split; [exact Hpc|].
  split; [exact (Hsr eq_refl)|exact Hp].
Defined.

Lemma failed_initialization_is_retried_witness :
  let s1 := fst (run secret_name_set (Call :: connect_refused) fresh) in
  let s2 := fst (step secret_name_set (InitSettled 0%nat) s1) in
  snd (step secret_name_set (InitSettled 0%nat) s1)
    = Settles 0%nat (Rejected "connect ECONNREFUSED 10.0.0.5:5432") /\
  pool s2 = None /\ isInitializing s2 = false /\ initPromise s2 = None /\
  snd (getPool secret_name_set s2) = Got (Pending 1%nat).
Proof.
  assert (Hidle : idle fresh) by (repeat split; reflexivity).
  assert (Hno : ~ In (InitSettled (nextPromise fresh)) connect_refused).
  { simpl. intros H. repeat (destruct H as [H|H]; [discriminate H|]).
    exact H. }
  pose proof (failed_initialization_is_retried secret_name_set fresh
                connect_refused "connect ECONNREFUSED 10.0.0.5:5432"
                Hidle Hno) as H.
  cbv zeta in H |- *.
  destruct (H eq_refl) as (Hs & Hp & (_ & Hi & Hpr & _) & Hnext & _).
  repeat split; assumption.
Defined.

(* ===================================================================== *)
(** ** More about the token cache                                         *)
(* ===================================================================== *)

Section CacheFacts.

Variable CACHE_TTL : Z.

Local Abbreviation verifyToken := (TokenVerifier.verifyToken CACHE_TTL).
Local Abbreviation getCacheStats := (TokenVerifier.getCacheStats CACHE_TTL).

(** X1.  A call of [verifyToken] changes the size that [getCacheStats]
    reports by at most one in either direction; it does not grow it when
    the result is invalid; and it leaves the cache as it was when it asked
    the store nothing. *)
Theorem cache_size_moves_by_one (st : Store) (token : JsValue) (w : World) :
  let out := verifyToken st token w in
  let before := stats_size (fst (getCacheStats w)) in
  let after := stats_size (fst (getCacheStats (snd out))) in
  (after <= S before)%nat /\ (before <= S after)%nat /\
  (forall r, fst out = Returns r -> isValid r = false ->
             (after <= before)%nat) /\
  (storeQueries (snd out) = storeQueries w ->
   tokenCache (snd out) = tokenCache w).
Proof.
  cbv zeta. unfold TokenVerifier.getCacheStats. cbn [fst stats_size].
  destruct (verifyToken_effect CACHE_TTL st token w)
    as [(r & H) | (s & r & w' & -> & Hs & H & Hq & _ & Hcache)];
    rewrite H; cbn [fst snd].
  - repeat split; auto; lia.
  - assert (Hdel : (size (delete s (tokenCache w)) <= size (tokenCache w)
                    <= S (size (delete s (tokenCache w))))%nat).
    { rewrite map_size_delete.
      destruct (tokenCache w !! s); simpl; lia. }
    rewrite Hcache. split; [|split; [|split]].
    + destruct (isValid r); [|lia].
      rewrite insert_delete_eq, map_size_insert.
      destruct (tokenCache w !! s); simpl; lia.
    + destruct (isValid r); [|lia].
      rewrite map_size_insert, lookup_delete_eq. simpl. lia.
    + intros r' Hr' Hbad. inversion Hr'; subst r'. rewrite Hbad. lia.
    + intros Hsame. lia.
Qed.

(** X2.  Each call of [verifyToken] issues at most one store query, and
    none at all for a token that is absent, not a string, or empty: that
    call returns "Token is required" and changes nothing. *)
Theorem one_query_at_most (st : Store) (token : JsValue) (w : World) :
  let out := verifyToken st token w in
  (storeQueries (snd out) = storeQueries w \/
   storeQueries (snd out) = S (storeQueries w)) /\
  ((forall s, token = VStr s -> s = "") ->
   out = (Returns tokenRequired, w)).
Proof.
  cbv zeta. split.
  - destruct (verifyToken_effect CACHE_TTL st token w)
      as [(r & H) | (s & r & w' & _ & _ & H & Hq & _)];
      rewrite H; cbn [snd]; auto.
  - apply verifyToken_not_a_token.
Qed.

(** X3.  A call of [verifyToken] for one token reads and writes the cache
    entry of that token only: the entry of every other key is what it was. *)
Theorem other_tokens_untouched (st : Store) (token : JsValue) (w : World)
        (k : string) :
  token <> VStr k ->
  tokenCache (snd (verifyToken st token w)) !! k = tokenCache w !! k.
Proof.
  intros Hne.
  destruct (verifyToken_effect CACHE_TTL st token w)
    as [(r & H) | (s & r & w' & -> & Hs & H & _ & _ & Hcache)];
    rewrite H; cbn [snd]; [reflexivity|].
  assert (Hsk : s <> k) by congruence.
  rewrite Hcache. destruct (isValid r).
  - rewrite lookup_insert_ne, lookup_delete_ne by assumption. reflexivity.
  - now rewrite lookup_delete_ne.
Qed.

(** X4.  After [clearCache()] the cache is empty by [getCacheStats], and
    the next [verifyToken] for any non-empty string goes to the store, with
    exactly one query, whatever was cached for it before. *)
Theorem clearCache_forces_a_query (st : Store) (s : string) (w : World) :
  s <> "" ->
  let w0 := snd (clearCache w) in
  stats_size (fst (getCacheStats w0)) = 0%nat /\
  verifyToken st (VStr s) w0 = queryAndCache st s w0 /\
  storeQueries (snd (verifyToken st (VStr s) w0)) = S (storeQueries w).
Proof.
  intros Hs. cbv zeta. unfold clearCache. cbn [snd].
  set (w0 := {| tokenCache := ∅; clock := clock w;
                storeQueries := storeQueries w |}).
  assert (Hmiss : tokenCache w0 !! s = None) by apply lookup_empty.
  pose proof (verifyToken_fallthrough CACHE_TTL st s w0 w0 Hs
                (checkCache_miss CACHE_TTL s w0 Hmiss)) as Hv.
  split; [apply map_size_empty|]. split; [exact Hv|].
  rewrite Hv. now rewrite queryAndCache_one_query.
Qed.

End CacheFacts.

Lemma cache_size_moves_by_one_witness :
  stats_size (fst (getCacheStats ttl_default
    (snd (verifyToken ttl_default store_empty (VStr "tok_abc") cold))))
  = 0%nat.
Proof.
  pose proof (cache_size_moves_by_one ttl_default store_empty
                (VStr "tok_abc") cold) as H.
  cbv zeta in H. destruct H as (_ & _ & H & _).
  specialize (H tokenNotFound eq_refl eq_refl).
  change (stats_size (fst (getCacheStats ttl_default cold))) with 0%nat in H.
  now apply Nat.le_0_r in H.
Defined.

Lemma one_query_at_most_witness :
  verifyToken ttl_default store_down (VNum 42) positive_cached
  = (Returns tokenRequired, positive_cached).
Proof.
  pose proof (one_query_at_most ttl_default store_down (VNum 42)
                positive_cached) as H.
  cbv zeta in H. destruct H as (_ & H). apply H.
  intros s Hs. discriminate Hs.
Defined.

Lemma other_tokens_untouched_witness :
  tokenCache (snd (verifyToken ttl_default store_empty (VStr "tok_other")
                               positive_cached)) !! "tok_abc"
  = Some {| result := tokenValid rec_active; cachedAt := 1699999999000 |}.
Proof.
  rewrite (other_tokens_untouched ttl_default store_empty (VStr "tok_other")
             positive_cached "tok_abc"); [reflexivity|discriminate].
Defined.

Lemma clearCache_forces_a_query_witness :
  storeQueries
    (snd (verifyToken ttl_default store_empty (VStr "tok_abc")
            (snd (clearCache positive_cached)))) = 1%nat.
Proof.
  pose proof (clearCache_forces_a_query ttl_default store_empty "tok_abc"
                positive_cached ltac:(discriminate)) as H.
  cbv zeta in H. destruct H as (_ & _ & H). exact H.
Defined.

(* ===================================================================== *)
(** ** Facts about the handler                                            *)
(* ===================================================================== *)

Section LambdaFacts.

Variable CACHE_TTL : Z.
Variable st : Store.
Variable rd : Lambda.Renderer.

Local Abbreviation verifyToken := (TokenVerifier.verifyToken CACHE_TTL st).
Local Abbreviation handler := (Lambda.handler CACHE_TTL st rd).

Lemma lambda_fields (f : gmap string Lambda.Json) (w : World) :
  handler (Lambda.Fields f) w =
  match TokenVerifier.handler CACHE_TTL st (Lambda.prop f "token") w with
  | (Respond r, w') =>
      (Lambda.JsonReply (statusCode r) (body_error r)
                        (option_map (pair "message") (body_message r)), w')
  | (Proceed _, w') => (Lambda.render rd f, w')
  end.
Proof.
  unfold Lambda.handler, bind, ret.
  destruct (TokenVerifier.handler CACHE_TTL st (Lambda.prop f "token") w)
    as [[r|v] w']; reflexivity.
Qed.

(** The token check lets a request through exactly with the valid result
    of [verifyToken]. *)
Lemma token_check_proceeds (token : JsValue) (w w' : World) (v : VerifyResult) :
  TokenVerifier.handler CACHE_TTL st token w = (Proceed v, w') ->
  truthy token = true /\ verifyToken token w = (Returns v, w') /\
  isValid v = true.
Proof.
  unfold TokenVerifier.handler.
  destruct (truthy token) eqn:Ht; cbn [negb]; [|discriminate].
  unfold bind, ret.
  destruct (TokenVerifier.verifyToken CACHE_TTL st token w) as [[tv|e] w1];
    [|discriminate].
  destruct (isValid tv) eqn:Hv; cbn [negb]; [|discriminate].
  intros H. inversion H; subst. auto.
Qed.

Lemma token_check_rejects (token : JsValue) (w w' : World) (v : VerifyResult) :
  truthy token = true -> verifyToken token w = (Returns v, w') ->
  isValid v = false ->
  TokenVerifier.handler CACHE_TTL st token w
  = (Respond {| statusCode := 401; body_error := errorMessage v;
                body_message := None |}, w').
Proof.
  intros Ht Hv Hbad. unfold TokenVerifier.handler.
  rewrite Ht. cbn [negb]. unfold bind, ret. rewrite Hv, Hbad. reflexivity.
Qed.

(** X5.  The handler answers with an image only if the body has a [token]
    for which [verifyToken] returned a valid result in this very call, and
    a truthy [code]. *)
Theorem image_only_for_valid_token (body : Lambda.Body) (w : World)
        (contentType image : string) (encoded : bool) :
  fst (handler body w) = Lambda.ImageReply contentType image encoded ->
  exists f v,
    body = Lambda.Fields f /\
    fst (verifyToken (Lambda.prop f "token") w) = Returns v /\
    isValid v = true /\
    truthy (Lambda.prop f "code") = true.
Proof.
  destruct body as [|msg|f]; [discriminate..|].
  rewrite lambda_fields.
  destruct (TokenVerifier.handler CACHE_TTL st (Lambda.prop f "token") w)
    as [[r|v] w'] eqn:Hauth; [discriminate|].
  apply token_check_proceeds in Hauth as (_ & Hv & Hok).
  cbn [fst]. intros Hrender. exists f, v.
  split; [reflexivity|]. split; [now rewrite Hv|]. split; [exact Hok|].
  revert Hrender. unfold Lambda.render.
  destruct (truthy (Lambda.prop f "code")); [reflexivity|discriminate].
Qed.

(** X6.  The token is dealt with before anything else in the body.  With
    no [token] (or a falsy one) the answer is 401 "Missing API token" and
    neither the cache nor the store is touched; with a token that
    [verifyToken] rejects the answer is 401 with the message of the
    verifier.  In both cases [code], [format] and the renderer play no
    part. *)
Theorem token_checked_before_request (f : gmap string Lambda.Json) (w : World) :
  (truthy (Lambda.prop f "token") = false ->
   handler (Lambda.Fields f) w
   = (Lambda.JsonReply 401 "Missing API token" None, w)) /\
  (forall v w',
      truthy (Lambda.prop f "token") = true ->
      verifyToken (Lambda.prop f "token") w = (Returns v, w') ->
      isValid v = false ->
      handler (Lambda.Fields f) w
      = (Lambda.JsonReply 401 (errorMessage v) None, w')).
Proof.
  split.
  - intros Ht. rewrite lambda_fields. unfold TokenVerifier.handler.
    rewrite Ht. reflexivity.
  - intros v w' Ht Hv Hbad. rewrite lambda_fields.
    now rewrite (token_check_rejects _ w w' v Ht Hv Hbad).
Qed.

(** What [format] is after its default, in terms of the body. *)
Lemma format_cases (f : gmap string Lambda.Json) :
  (Lambda.is_str (Lambda.or_default (f !! "format") (Lambda.JStr "svg")) "svg"
   = true <->
   (f !! "format" = None \/ f !! "format" = Some (Lambda.JStr "svg"))) /\
  (Lambda.is_str (Lambda.or_default (f !! "format") (Lambda.JStr "svg")) "png"
   = true <->
   f !! "format" = Some (Lambda.JStr "png")).
Proof.
  destruct (f !! "format") as [[|b|n|t|items|members]|];
    cbn [Lambda.or_default Lambda.is_str];
    (split; split; intros H);
    try (apply String.eqb_eq in H; subst);
    try (destruct H as [H|H]);
    try discriminate H; try (inversion H; subst);
    auto; try (apply String.eqb_eq; reflexivity).
Qed.

Lemma format_not_both (fmt : Lambda.Json) :
  Lambda.is_str fmt "png" = true -> Lambda.is_str fmt "svg" = false.
Proof.
  destruct fmt as [|b|n|t|items|members]; try discriminate.
  cbn. intros H. apply String.eqb_eq in H. now subst.
Qed.

(** X7.  What the handler renders.  Past the token check the reply is an
    image exactly when [code] is truthy, [language] and [code.length]
    convert to strings, the highlighter succeeds, [background] and
    [padding] convert to strings, and either [format] is absent or "svg",
    giving the SVG text as it is, not encoded, or [format] is "png" and
    the PNG generator succeeds, giving the buffer in base64, flagged as
    encoded.  A [format] of [null], or spelled any other way, is not one of
    these. *)
Theorem render_image_iff (f : gmap string Lambda.Json)
        (contentType image : string) (encoded : bool) :
  Lambda.render rd f = Lambda.ImageReply contentType image encoded <->
  exists code highlighted,
    f !! "code" = Some code /\
    truthy (Lambda.prop f "code") = true /\
    Lambda.printable
      (Lambda.or_default (f !! "language") (Lambda.JStr "javascript")) = true /\
    Lambda.printable_opt (Lambda.code_length code) = true /\
    Lambda.codeToHtml rd code
      (Lambda.or_default (f !! "language") (Lambda.JStr "javascript"))
      (Lambda.or_default (f !! "theme") (Lambda.JStr "github-dark"))
    = Returns highlighted /\
    Lambda.printable_opt (f !! "background") = true /\
    Lambda.printable_opt (f !! "padding") = true /\
    let html := Lambda.buildHtmlTemplate rd highlighted
                  (f !! "background") (f !! "padding")
                  (f !! "showLineNumbers") (f !! "showWindowControls") in
    ((f !! "format" = None \/ f !! "format" = Some (Lambda.JStr "svg")) /\
     contentType = "image/svg+xml" /\ encoded = false /\
     image = Lambda.generateSVG rd html) \/
    (f !! "format" = Some (Lambda.JStr "png") /\
     contentType = "image/png" /\ encoded = true /\
     exists buffer, Lambda.generatePNG rd html = Returns buffer /\
                    image = Lambda.base64 rd buffer).
Proof.
  destruct (format_cases f) as [Hsvg Hpng].
  unfold Lambda.render.
  set (language := Lambda.or_default (f !! "language") _) in *.
  set (theme := Lambda.or_default (f !! "theme") _) in *.
  set (fmt := Lambda.or_default (f !! "format") _) in *.
  split.
  - destruct (truthy (Lambda.prop f "code")) eqn:Ht; cbn [negb];
      [|discriminate].
    destruct (Lambda.is_str fmt "svg") eqn:Hs;
      destruct (Lambda.is_str fmt "png") eqn:Hp; cbn [negb andb];
      try discriminate.
    { apply format_not_both in Hp. congruence. }
    all: destruct (f !! "code") as [code|] eqn:Hcode; [|discriminate].
    all: destruct (Lambda.printable language) eqn:Hl; cbn [negb andb];
      [|discriminate].
    all: destruct (Lambda.printable_opt (Lambda.code_length code)) eqn:Hn;
      cbn [negb]; [|discriminate].
    all: destruct (Lambda.codeToHtml rd code language theme) as [hl|msg]
      eqn:Hhl; [|discriminate].
    all: destruct (Lambda.printable_opt (f !! "background")) eqn:Hbg;
      cbn [negb andb]; [|discriminate].
    all: destruct (Lambda.printable_opt (f !! "padding")) eqn:Hpad;
      cbn [negb]; [|discriminate].
    + intros H. inversion H; subst.
      exists code, hl. repeat (split; [first [reflexivity|assumption]|]).
      left. split; [now apply Hsvg|]. auto.
    + destruct (Lambda.generatePNG rd _) as [buf|msg] eqn:Hgen;
        [|discriminate].
      intros H. inversion H; subst.
      exists code, hl. repeat (split; [first [reflexivity|assumption]|]).
      right. split; [now apply Hpng|]. eauto 6.
  - intros (code & hl & Hcode & Ht & Hl & Hn & Hhl & Hbg & Hpad & Hcase).
    rewrite Ht, Hcode, Hl, Hn, Hhl, Hbg, Hpad. cbn [negb andb].
    destruct Hcase as [(Hf & -> & -> & ->) | (Hf & -> & -> & buf & Hgen & ->)].
    + apply Hsvg in Hf. rewrite Hf. cbn [negb andb].
      destruct (Lambda.is_str fmt "png") eqn:Hp; [|reflexivity].
      apply format_not_both in Hp. congruence.
    + apply Hpng in Hf. rewrite Hf, andb_false_r.
      cbv zeta in Hgen. now rewrite Hgen.
Qed.

(** X8.  The status codes of the handler.  A JSON reply has status 400, 401
    or 500, never the 503 its source text contains.  A 500 carries the
    message of what was thrown, and comes only from a body that is null or
    undefined, from one of [language], [code.length], [background] and
    [padding] that cannot be converted to a string, or from a PNG request
    whose generator threw; so a request for SVG whose values convert is
    never answered with 500. *)
Theorem handler_status_codes (body : Lambda.Body) (w : World)
        (code : Z) (err : string) (more : option (string * string)) :
  fst (handler body w) = Lambda.JsonReply code err more ->
  (code = 400 \/ code = 401 \/ code = 500) /\
  (code = 500 ->
   exists msg,
     more = Some ("message", msg) /\
     (body = Lambda.Nullish msg \/
      exists f c,
        body = Lambda.Fields f /\ f !! "code" = Some c /\
        ((msg = Lambda.cannot_convert /\
          Lambda.printable
            (Lambda.or_default (f !! "language") (Lambda.JStr "javascript"))
          && Lambda.printable_opt (Lambda.code_length c)
          && Lambda.printable_opt (f !! "background")
          && Lambda.printable_opt (f !! "padding") = false) \/
         (f !! "format" = Some (Lambda.JStr "png") /\
          exists html, Lambda.generatePNG rd html = Throws msg)))).
Proof.
  destruct body as [|msg|f].
  - intros H. inversion H; subst. split; [auto|discriminate].
  - intros H. inversion H; subst. split; [auto|eauto].
  - rewrite lambda_fields.
    destruct (TokenVerifier.handler CACHE_TTL st (Lambda.prop f "token") w)
      as [[r|v] w'] eqn:Hauth; cbn [fst].
    + pose proof (handler_responds_401_only CACHE_TTL st
                    (Lambda.prop f "token") w r) as H401.
      rewrite Hauth in H401. specialize (H401 eq_refl).
      intros H. inversion H; subst. rewrite H401.
      split; [auto|discriminate].
    + destruct (format_cases f) as [_ Hpng].
      unfold Lambda.render.
      destruct (truthy (Lambda.prop f "code")); cbn [negb].
      2:{ intros H. inversion H; subst. split; [auto|discriminate]. }
      destruct (negb (Lambda.is_str _ "svg") && negb (Lambda.is_str _ "png")).
      { intros H. inversion H; subst. split; [auto|discriminate]. }
      destruct (f !! "code") as [c|] eqn:Hcode.
      2:{ intros H. inversion H; subst. split; [auto|discriminate]. }
      destruct (Lambda.printable _ && Lambda.printable_opt (Lambda.code_length c))
        eqn:Hlog; cbn [negb].
      2:{ intros H. inversion H; subst. split; [auto|]. intros _.
          exists Lambda.cannot_convert. split; [reflexivity|]. right.
          exists f, c. split; [reflexivity|]. split; [exact Hcode|]. left.
          split; [reflexivity|]. now rewrite Hlog. }
      destruct (Lambda.codeToHtml rd _ _ _) as [hl|m].
      2:{ intros H. inversion H; subst. split; [auto|discriminate]. }
      destruct (Lambda.printable_opt (f !! "background")
                && Lambda.printable_opt (f !! "padding")) eqn:Htpl; cbn [negb].
      2:{ intros H. inversion H; subst. split; [auto|]. intros _.
          exists Lambda.cannot_convert. split; [reflexivity|]. right.
          exists f, c. split; [reflexivity|]. split; [exact Hcode|]. left.
          split; [reflexivity|].
          rewrite Hlog, <- andb_assoc, Htpl. reflexivity. }
      destruct (Lambda.is_str _ "png") eqn:Hp; [|discriminate].
      destruct (Lambda.generatePNG rd _) as [buf|m] eqn:Hgen; [discriminate|].
      intros H. inversion H; subst. split; [auto|]. intros _.
      exists m. split; [reflexivity|]. right.
      exists f, c. split; [reflexivity|]. split; [exact Hcode|]. right.
      split; [now apply Hpng|]. eauto.
Qed.

(** X16.  A value that cannot be converted to a string is answered with
    500, whatever the renderer does.  For a request that passed the token
    check, with a truthy [code] and a [format] that is absent, "svg" or
    "png": if [language] or [code.length] does not convert, the reply is
    500 "Internal server error" and the highlighter plays no part; if they
    convert and the highlighter succeeds but [background] or [padding] does
    not convert, the reply is the same and no image is generated. *)
Theorem unconvertible_value_is_500 (f : gmap string Lambda.Json)
        (code : Lambda.Json) (w w' : World) (v : VerifyResult) :
  truthy (Lambda.prop f "token") = true ->
  verifyToken (Lambda.prop f "token") w = (Returns v, w') ->
  isValid v = true ->
  f !! "code" = Some code ->
  truthy (Lambda.prop f "code") = true ->
  (f !! "format" = None \/ f !! "format" = Some (Lambda.JStr "svg") \/
   f !! "format" = Some (Lambda.JStr "png")) ->
  let language :=
    Lambda.or_default (f !! "language") (Lambda.JStr "javascript") in
  let theme :=
    Lambda.or_default (f !! "theme") (Lambda.JStr "github-dark") in
  (Lambda.printable language = false \/
   Lambda.printable_opt (Lambda.code_length code) = false ->
   handler (Lambda.Fields f) w
   = (Lambda.JsonReply 500 "Internal server error"
        (Some ("message", Lambda.cannot_convert)), w')) /\
  (forall highlighted,
      Lambda.printable language = true ->
      Lambda.printable_opt (Lambda.code_length code) = true ->
      Lambda.codeToHtml rd code language theme = Returns highlighted ->
      Lambda.printable_opt (f !! "background") = false \/
      Lambda.printable_opt (f !! "padding") = false ->
      handler (Lambda.Fields f) w
      = (Lambda.JsonReply 500 "Internal server error"
           (Some ("message", Lambda.cannot_convert)), w')).
Proof.
  intros Htok Hv Hok Hcode Ht Hfmt language theme.
  assert (Hpass : handler (Lambda.Fields f) w = (Lambda.render rd f, w')).
  { rewrite lambda_fields. unfold TokenVerifier.handler.
    rewrite Htok. cbn [negb]. unfold bind, ret. rewrite Hv, Hok.
    reflexivity. }
  assert (Hformat :
            negb (Lambda.is_str
                    (Lambda.or_default (f !! "format") (Lambda.JStr "svg")) "svg")
            && negb (Lambda.is_str
                       (Lambda.or_default (f !! "format") (Lambda.JStr "svg"))
                       "png") = false).
  { destruct Hfmt as [-> | [-> | ->]]; reflexivity. }
  rewrite Hpass. unfold Lambda.render.
  rewrite Ht, Hformat, Hcode. cbn [negb].
  fold language. fold theme.
  split.
  - intros [Hl | Hn].
    + rewrite Hl. reflexivity.
    + rewrite Hn, andb_false_r. reflexivity.
  - intros hl Hl Hn Hhl Htpl. rewrite Hl, Hn, Hhl. cbn [negb andb].
    destruct Htpl as [Hbg | Hpad].
    + rewrite Hbg. reflexivity.
    + rewrite Hpad, andb_false_r. reflexivity.
Qed.

End LambdaFacts.

Lemma image_only_for_valid_token_witness :
  exists v,
    fst (verifyToken ttl_default (store_with rec_active) (VStr "tok_abc") cold)
    = Returns v /\ isValid v = true.
Proof.
  destruct (image_only_for_valid_token ttl_default (store_with rec_active)
              demo_renderer (Lambda.Fields body_svg) cold
              "image/svg+xml"
              "<svg><html><body><pre class=shiki><code>...</code></pre></body></html></svg>"
              false eq_refl)
    as (f & v & Hf & Hv & Hok & _).
  inversion Hf; subst f. exists v. split; [exact Hv|exact Hok].
Defined.

Lemma token_checked_before_request_witness :
  Lambda.handler ttl_default store_down demo_renderer
                 (Lambda.Fields body_no_token) cold
  = (Lambda.JsonReply 401 "Missing API token" None, cold).
Proof.
  destruct (token_checked_before_request ttl_default store_down demo_renderer
              body_no_token cold) as (H & _).
  apply H. reflexivity.
Defined.

Lemma render_image_iff_witness :
  Lambda.render demo_renderer body_default_format
  = Lambda.ImageReply "image/svg+xml"
      "<svg><html><body><pre class=shiki><code>...</code></pre></body></html></svg>"
      false /\
  Lambda.render demo_renderer body_null_format
  <> Lambda.ImageReply "image/svg+xml"
      "<svg><html><body><pre class=shiki><code>...</code></pre></body></html></svg>"
      false /\
  Lambda.render demo_renderer body_odd_background
  <> Lambda.ImageReply "image/svg+xml"
      "<svg><html><body><pre class=shiki><code>...</code></pre></body></html></svg>"
      false.
Proof.
  split; [|split].
  - apply (render_image_iff demo_renderer body_default_format).
    exists (Lambda.JStr "let x = 1"). eexists.
    repeat (split; [reflexivity|]).
    left. split; [left; reflexivity|]. repeat split.
  - intros H. apply (render_image_iff demo_renderer body_null_format) in H.
    destruct H as (c & hl & _ & _ & _ & _ & _ & _ & _ &
                   [([H|H] & _) | (H & _)]);
      discriminate H.
  - intros H. apply (render_image_iff demo_renderer body_odd_background) in H.
    destruct H as (c & hl & _ & _ & _ & _ & _ & H & _).
    discriminate H.
Defined.

Lemma handler_status_codes_witness :
  fst (Lambda.handler ttl_default (store_with rec_active) demo_renderer
                      (Lambda.Fields body_png) cold)
  = Lambda.JsonReply 500 "Internal server error"
      (Some ("message", "Failed to launch the browser process")) /\
  body_png !! "format" = Some (Lambda.JStr "png").
Proof.
  split; [reflexivity|].
  destruct (handler_status_codes ttl_default (store_with rec_active)
              demo_renderer (Lambda.Fields body_png) cold 500
              "Internal server error"
              (Some ("message", "Failed to launch the browser process"))
              eq_refl) as (_ & H).
  destruct (H eq_refl)
    as (msg & Hmore & [Hb | (f & c & Hb & _ & [(Hmsg & _) | (Hf & _)])]).
  - discriminate Hb.
  - subst msg. discriminate Hmore.
  - inversion Hb; subst f. exact Hf.
Defined.

Lemma unconvertible_value_is_500_witness :
  fst (Lambda.handler ttl_default (store_with rec_active) demo_renderer
         (Lambda.Fields body_odd_language) cold)
  = Lambda.JsonReply 500 "Internal server error"
      (Some ("message", "Cannot convert object to primitive value")) /\
  fst (Lambda.handler ttl_default (store_with rec_active) demo_renderer
         (Lambda.Fields body_odd_background) cold)
  = Lambda.JsonReply 500 "Internal server error"
      (Some ("message", "Cannot convert object to primitive value")).
Proof.
  split.
  - pose proof (unconvertible_value_is_500 ttl_default (store_with rec_active)
                  demo_renderer body_odd_language (Lambda.JStr "let x = 1")
                  cold _ _ eq_refl eq_refl eq_refl eq_refl eq_refl
                  (or_introl eq_refl)) as H.
    cbv zeta in H. destruct H as (H & _).
    rewrite (H (or_introl eq_refl)). reflexivity.
  - pose proof (unconvertible_value_is_500 ttl_default (store_with rec_active)
                  demo_renderer body_odd_background (Lambda.JStr "let x = 1")
                  cold _ _ eq_refl eq_refl eq_refl eq_refl eq_refl
                  (or_introl eq_refl)) as H.
    cbv zeta in H. destruct H as (_ & H).
    rewrite (H _ eq_refl eq_refl eq_refl (or_introl eq_refl)). reflexivity.
Defined.

(* ===================================================================== *)
(** ** More about the pooled store connector                              *)
(* ===================================================================== *)

Section PoolInvariant.

Variable secretName : option string.

Local Abbreviation getPool := (ConnectionPool.getPool secretName).
Local Abbreviation step := (ConnectionPool.step secretName).
Local Abbreviation run := (ConnectionPool.run secretName).

Lemma fresh_sound : sound fresh.
Proof.
  unfold sound, fresh. cbn. repeat split; auto; try lia.
  intros np H. discriminate H.
Qed.

(** One turn of the event loop keeps the state sound, and touches the
    state of the secret provider only while nothing is memoized. *)
Lemma step_sound (ev : Event) (s : State) :
  sound s ->
  sound (fst (step ev s)) /\
  (forall c, cachedCredentials (secrets s) = Some c ->
             secrets (fst (step ev s)) = secrets s).
Proof.
  intros Hsame. pose proof Hsame as (Hpc & Hsr & Hpool & Hshape).
  destruct Hshape as [(Hfl & Hinit & Hprom) | (p & ph & Hatt & Hph)].
  - (* nothing under way *)
    destruct ev as [|q reply|q failure|q|q|]; cbn [ConnectionPool.step];
      rewrite ?Hfl, ?lookup_empty; cbn [fst]; auto.
    + destruct (pool s) as [np|] eqn:Hp.
      { unfold ConnectionPool.getPool. rewrite Hp. cbn [fst]. auto. }
      assert (Hidle : idle s) by (unfold idle; auto).
      rewrite (getPool_from_idle secretName s Hidle),
        initializePool_start_cases.
      destruct (env_unset secretName).
      * cbn [fst]. split; [|reflexivity].
        unfold sound, attempt, phase_ok. state_simpl.
        split; [lia|]. split; [lia|]. split; [discriminate|].
        right. eexists _, _. split; [rewrite ?Hp; repeat split; eauto|cbv beta iota; exact I].
      * destruct (cachedCredentials (secrets s)) as [c|] eqn:Hc; cbn [fst].
        -- split; [|reflexivity].
           unfold sound, attempt, phase_ok. state_simpl.
           split; [lia|]. split; [lia|].
           split; [rewrite Hp; discriminate|].
           right. eexists _, _. split; [rewrite ?Hp; repeat split; eauto|]. cbv beta iota. lia.
        -- split; [|discriminate].
           unfold sound, attempt, phase_ok. state_simpl.
           split; [lia|]. split; [lia|].
           split; [rewrite Hp; discriminate|].
           right. eexists _, _. split; [rewrite ?Hp; repeat split; eauto|].
           cbv beta iota. split; [reflexivity|lia].
    + split; [|reflexivity]. unfold sound. state_simpl.
      split; [lia|]. split; [lia|]. split; [discriminate|]. auto.
  - (* the initialization behind [p] is under way, in phase [ph] *)
    pose proof Hatt as (Hnone & Hinit & Hprom & Hfl & Hnext).
    destruct ev as [|q reply|q failure|q|q|]; cbn [ConnectionPool.step].
    + rewrite (getPool_joins secretName p ph s Hatt). cbn [fst]. auto.
    + rewrite Hfl. destruct (decide (q = p)) as [->|Hne];
        [rewrite lookup_singleton_eq
        |rewrite lookup_singleton_ne by congruence; cbn [fst]; auto].
      destruct ph as [[c|]|np|r]; cbn [fst]; auto.
      destruct Hph as (Hc0 & Hlt).
      pose proof (resume_keeps_count reply (secrets s)) as Hkeep.
      destruct (getDatabaseCredentials_resume reply (secrets s))
        as [[c|msg] m]; cbn [snd] in Hkeep; cbn [fst].
      * split; [|intros c' Hc'; congruence].
        unfold sound, attempt, phase_ok. state_simpl.
        rewrite ?Hfl, insert_singleton_eq, Hkeep.
        split; [lia|]. split; [lia|]. split; [rewrite Hnone; discriminate|].
        right. eexists _, _. split; [repeat split; eauto|]. cbv beta iota. lia.
      * split; [|intros c' Hc'; congruence].
        unfold sound, attempt, phase_ok. state_simpl.
        rewrite ?Hfl, insert_singleton_eq, Hkeep.
        split; [lia|]. split; [lia|]. split; [discriminate|].
        right. eexists _, _. split; [repeat split; eauto|cbv beta iota; exact I].
    + rewrite Hfl. destruct (decide (q = p)) as [->|Hne];
        [rewrite lookup_singleton_eq
        |rewrite lookup_singleton_ne by congruence; cbn [fst]; auto].
      destruct ph as [[c|]|np|r]; cbn [fst]; auto.
      destruct failure as [msg|]; cbn [fst].
      * split; [|reflexivity].
        unfold sound, attempt, phase_ok. state_simpl.
        rewrite ?Hfl, insert_singleton_eq.
        split; [lia|]. split; [lia|]. split; [discriminate|].
        right. eexists _, _. split; [repeat split; eauto|cbv beta iota; exact I].
      * split; [|reflexivity].
        unfold sound, attempt, phase_ok. state_simpl.
        rewrite ?Hfl, insert_singleton_eq.
        split; [lia|]. split; [lia|]. split; [exact Hpool|].
        right. eexists _, _. split; [repeat split; eauto|cbv beta iota; exact Hph].
    + rewrite Hfl. destruct (decide (q = p)) as [->|Hne];
        [rewrite lookup_singleton_eq
        |rewrite lookup_singleton_ne by congruence; cbn [fst]; auto].
      destruct ph as [[c|]|np|r]; cbn [fst]; auto.
      split; [|reflexivity].
      unfold sound, attempt, phase_ok in *. state_simpl.
      rewrite ?Hfl, insert_singleton_eq.
      split; [lia|]. split; [lia|]. split; [rewrite Hnone; discriminate|].
      right. eexists _, _. split; [repeat split; eauto|]. cbv beta iota. lia.
    + rewrite Hfl. destruct (decide (q = p)) as [->|Hne];
        [rewrite lookup_singleton_eq
        |rewrite lookup_singleton_ne by congruence; cbn [fst]; auto].
      destruct ph as [[c|]|np|r]; cbn [fst]; auto.
      unfold getPool_resume. cbn [fst].
      split; [|destruct r; reflexivity].
      unfold sound. destruct r as [np|msg]; state_simpl;
        rewrite Hfl, delete_singleton_eq.
      * split; [lia|]. split; [lia|]. split; [|left; auto].
        intros np' H. inversion H; subst np'. exact Hph.
      * split; [lia|]. split; [lia|]. split; [exact Hpool|left; auto].
    + cbn [fst]. split; [|reflexivity].
      unfold sound, attempt. state_simpl.
      split; [lia|]. split; [lia|]. split; [discriminate|].
      right. exists p, ph. split; [auto 10|].
      destruct ph as [[c|]|np|[np|msg]]; exact Hph.
Qed.

Lemma run_sound (sched : list Event) (s : State) :
  sound s ->
  sound (fst (run sched s)) /\
  (forall c, cachedCredentials (secrets s) = Some c ->
             secrets (fst (run sched s)) = secrets s).
Proof.
  revert s. induction sched as [|ev sched IH]; intros s Hs; [auto|].
  rewrite run_cons. cbn [fst].
  destruct (step_sound ev s Hs) as (Hs1 & Hkeep1).
  destruct (IH _ Hs1) as (Hs2 & Hkeep2).
  split; [exact Hs2|]. intros c Hc.
  rewrite (Hkeep2 c) by (rewrite (Hkeep1 c Hc); exact Hc).
  exact (Hkeep1 c Hc).
Qed.

(** X9.  In every state the event loop reaches from a fresh process, by
    any schedule at all, at most one initialization is under way; the guard
    ([isInitializing], [initPromise]) is set exactly while it is, and then
    [pool] is unset; and neither more pools have been constructed nor more
    secrets requested than [initializePool] has been called. *)
Theorem single_flight_in_every_state (sched : list Event) :
  let s := fst (run sched fresh) in
  (size (inFlight s) <= 1)%nat /\
  (isInitializing s = true ->
   pool s = None /\
   exists p, initPromise s = Some p /\ is_Some (inFlight s !! p)) /\
  (isInitializing s = false -> initPromise s = None /\ inFlight s = ∅) /\
  (poolsConstructed s <= nextPromise s)%nat /\
  (secretsRequested (secrets s) <= nextPromise s)%nat.
Proof.
  cbv zeta. destruct (run_sound sched fresh fresh_sound)
    as ((Hpc & Hsr & _ & Hshape) & _).
  destruct Hshape
    as [(Hfl & Hinit & Hprom)
       | (p & ph & (Hnone & Hinit & Hprom & Hfl & _) & _)].
  - rewrite Hfl, Hinit, map_size_empty.
    split; [lia|]. split; [discriminate|]. auto.
  - rewrite Hfl, Hinit, map_size_singleton.
    split; [lia|]. split; [|split; [discriminate|auto]].
    intros _. split; [exact Hnone|]. exists p. split; [exact Hprom|].
    rewrite lookup_singleton_eq. eauto.
Qed.

(** X10.  Once the credentials are memoized they stay: whatever the event
    loop does afterwards (failures, pool errors, new initializations),
    [cachedCredentials] keeps the same object and no further secret is
    requested. *)
Theorem credentials_memoized_for_good (before after : list Event)
        (c : Credentials) :
  let s1 := fst (run before fresh) in
  let s2 := fst (run after s1) in
  cachedCredentials (secrets s1) = Some c ->
  cachedCredentials (secrets s2) = Some c /\
  secretsRequested (secrets s2) = secretsRequested (secrets s1).
Proof.
  cbv zeta. intros Hc.
  destruct (run_sound before fresh fresh_sound) as (Hs1 & _).
  destruct (run_sound after _ Hs1) as (_ & Hkeep).
  rewrite (Hkeep c Hc). auto.
Qed.

(** X11.  With a pool in place every caller is handed that pool and
    nothing changes.  When the pool reports an error (or is closed) the
    singleton is unset, and the next caller sets off a new initialization;
    with memoized credentials this one constructs a new pool, requests no
    secret, and makes the new pool the singleton. *)
Theorem pool_rebuilt_after_error (s : State) (np : PoolId) (c : Credentials)
        (n : nat) :
  env_unset secretName = false ->
  pool s = Some np -> isInitializing s = false -> initPromise s = None ->
  inFlight s = ∅ -> cachedCredentials (secrets s) = Some c ->
  let p := nextPromise s in
  let out := run [PoolReset; Call; CredentialsReady p;
                  ConnectSettles p None; InitSettled p] s in
  run (repeat Call n) s = (s, repeat (Got (Pooled np)) n) /\
  handles (snd out) = [Pending p] /\
  pool (fst out) = Some (poolsConstructed s) /\
  poolsConstructed (fst out) = S (poolsConstructed s) /\
  secrets (fst out) = secrets s /\
  isInitializing (fst out) = false /\ initPromise (fst out) = None.
Proof.
  intros Hname Hpool Hinit Hprom Hfl Hc. cbv zeta. split.
  - induction n as [|n IH]; [reflexivity|].
    cbn [repeat]. rewrite run_cons. cbn [ConnectionPool.step].
    unfold ConnectionPool.getPool at 1 2 3. rewrite Hpool. cbn [fst snd].
    now rewrite IH.
  - rewrite !run_cons. cbn [ConnectionPool.run fst snd handles].
    change (step PoolReset s) with (set_pool None s, Quiet). cbn [fst snd].
    assert (Hidle : idle (set_pool None s)) by (unfold idle; auto).
    change (step Call (set_pool None s)) with (getPool (set_pool None s)).
    rewrite (getPool_from_idle secretName _ Hidle),
      initializePool_start_cases.
    rewrite Hname. state_simpl. rewrite Hc. state_simpl.
    cbn [ConnectionPool.step]. state_simpl.
    rewrite lookup_singleton_eq. state_simpl.
    rewrite lookup_insert_eq. state_simpl.
    rewrite lookup_insert_eq. state_simpl.
    cbn [handles]. repeat split; reflexivity.
Qed.

End PoolInvariant.

Lemma credentials_memoized_for_good_witness :
  secretsRequested
    (secrets (fst (run secret_name_set rebuild
                (fst (run secret_name_set
                        (Call :: five_callers ++ [InitSettled 0%nat])
                        fresh))))) = 1%nat.
Proof.
  pose proof (credentials_memoized_for_good secret_name_set
                (Call :: five_callers ++ [InitSettled 0%nat]) rebuild
                {| host := VStr "db.internal"; port := VNum 5432;
                   database := VStr "app"; user := VStr "svc";
                   password := VStr "pw" |} eq_refl) as (_ & H).
  rewrite H. reflexivity.
Defined.

Lemma single_flight_in_every_state_witness :
  let s := fst (run secret_name_set
                  [Call; Call; SecretReplies 0%nat (SendRejected "timeout");
                   Call; InitSettled 0%nat; Call; Call]
                  fresh) in
  isInitializing s = true /\ pool s = None /\ initPromise s = Some 1%nat.
Proof.
  pose proof (single_flight_in_every_state secret_name_set
                [Call; Call; SecretReplies 0%nat (SendRejected "timeout");
                 Call; InitSettled 0%nat; Call; Call]) as H.
  cbv zeta in H |- *. destruct H as (_ & H & _).
  destruct (H eq_refl) as (Hpool & p & Hp & _).
  split; [reflexivity|]. split; [exact Hpool|]. reflexivity.
Defined.

Lemma pool_rebuilt_after_error_witness :
  let s := fst (run secret_name_set
                  (Call :: five_callers ++ [InitSettled 0%nat]) fresh) in
  pool s = Some 0%nat /\
  pool (fst (run secret_name_set rebuild s)) = Some 1%nat /\
  secretsRequested (secrets (fst (run secret_name_set rebuild s))) = 1%nat.
Proof.
  cbv zeta.
  pose proof (pool_rebuilt_after_error secret_name_set
                (fst (run secret_name_set
                        (Call :: five_callers ++ [InitSettled 0%nat]) fresh))
                0%nat
                {| host := VStr "db.internal"; port := VNum 5432;
                   database := VStr "app"; user := VStr "svc";
                   password := VStr "pw" |}
                3 eq_refl eq_refl eq_refl eq_refl eq_refl eq_refl) as H.
  cbv zeta in H. destruct H as (_ & _ & Hp & _ & Hs & _).
  split; [reflexivity|]. split; [exact Hp|].
  exact (f_equal secretsRequested Hs).
Defined.

(* ===================================================================== *)
(** ** Facts about the external authorization client                      *)
(* ===================================================================== *)

Section JaasFacts.

Import JaasClient.

Variable cfg : Config.
Variable makeRequest : string -> JsError + HttpResponse.

Local Abbreviation validateApiKey := (JaasClient.validateApiKey cfg makeRequest).

Lemma on_error_503 (e : JsError) :
  v_valid (on_error e) = false /\ v_statusCode (on_error e) = Some 503.
Proof.
  unfold on_error.
  destruct (_ || _); [split; reflexivity|].
  destruct (_ || _); split; reflexivity.
Qed.

Lemma by_status_valid (status : Z) (d : Json) (v : Validation) :
  by_status status d = inr v -> v_valid v = true ->
  status = 200 /\
  exists f, d = JsonObject f /\ f !! "valid" = Some (VBool true).
Proof.
  unfold by_status.
  destruct (status =? 200) eqn:Hs.
  - apply Z.eqb_eq in Hs. subst status. cbn [Z.eqb Pos.eqb].
    destruct d as [|f]; cbn [member]; [discriminate|].
    destruct (f !! "valid") as [[| |[|]|n|t|]|] eqn:Hv;
      cbn [default is_true].
    3:{ intros _ _. split; [reflexivity|]. eauto. }
    all: intros H Hvalid; inversion H; subst v; discriminate Hvalid.
  - destruct (status =? 401).
    + destruct (member d "error") as [e|err]; [discriminate|].
      destruct (if truthy err then err else VStr "Invalid API key");
        try discriminate.
      destruct (includes _ _); intros H Hvalid; inversion H; subst v;
        discriminate Hvalid.
    + destruct (status =? 429); intros H Hvalid; inversion H; subst v;
        discriminate Hvalid.
Qed.


(** X12.  [validateApiKey] says valid exactly when the client is
    configured, the key is a non-empty string, and the service answered
    with status 200 and a non-blank body that parses to an object whose
    [valid] is the boolean [true]. *)
Theorem valid_iff_200_and_true (apiKey : JsValue) :
  v_valid (validateApiKey apiKey) = true <->
  JAAS_BASE_URL cfg <> "" /\ URL_ok cfg = true /\
  exists key response f,
    apiKey = VStr key /\ key <> "" /\
    makeRequest key = inr response /\
    resp_status response = 200 /\
    resp_body response <> "" /\ blank cfg (resp_body response) = false /\
    JSON_parse cfg (resp_body response) = Returns (JsonObject f) /\
    f !! "valid" = Some (VBool true).
Proof.
  unfold JaasClient.validateApiKey. split.
  - destruct (String.eqb_spec (JAAS_BASE_URL cfg) ""); [discriminate|].
    destruct (negb (truthy apiKey) || negb (is_string apiKey)) eqn:Hkey;
      [discriminate|].
    destruct (URL_ok cfg); cbn [negb]; [|discriminate].
    destruct apiKey as [| |b|n0|key|]; try discriminate.
    apply orb_false_elim in Hkey as [Hkey _].
    apply negb_false_iff in Hkey. cbn in Hkey.
    apply negb_true_iff, String.eqb_neq in Hkey.
    destruct (makeRequest key) as [e|response] eqn:Hreq.
    { intros H. destruct (on_error_503 e) as [Hf _]. congruence. }
    destruct (String.eqb_spec (resp_body response) ""); [discriminate|].
    cbn [orb].
    destruct (blank cfg (resp_body response)) eqn:Hblank; [discriminate|].
    destruct (JSON_parse cfg (resp_body response)) as [d|msg] eqn:Hparse;
      [|discriminate].
    destruct (by_status (resp_status response) d) as [e|v] eqn:Hby.
    { intros H. destruct (on_error_503 e) as [Hf _]. congruence. }
    intros Hvalid.
    destruct (by_status_valid _ _ _ Hby Hvalid) as (Hs & f & -> & Hf).
    split; [assumption|]. split; [reflexivity|].
    exists key, response, f. auto 10.
  - intros (Hbase & Hurl & key & response & f & -> & Hkey & Hreq & Hs &
            Hbody & Hblank & Hparse & Hf).
    apply String.eqb_neq in Hbase, Hkey, Hbody.
    rewrite Hbase, Hurl. cbn [truthy is_string negb orb].
    rewrite Hkey. cbn [negb]. rewrite Hreq, Hbody, Hblank, Hparse, Hs.
    unfold by_status, member. cbn [Z.eqb Pos.eqb]. rewrite Hf.
    cbn [default is_true]. reflexivity.
Qed.


(** X14.  What the service says in a 401 does not reach the caller.  When
    the service answers 401 with an object whose [error] is absent, falsy
    or a string that does not mention "quota" in any letter case, the result
    is the fixed "Invalid API key" with status 401; when it is a string
    that does, the result is the fixed quota message with status 429. *)
Theorem remote_401_is_generic (key : string) (response : HttpResponse)
        (f : gmap string JsValue) :
  JAAS_BASE_URL cfg <> "" -> URL_ok cfg = true -> key <> "" ->
  makeRequest key = inr response -> resp_status response = 401 ->
  resp_body response <> "" -> blank cfg (resp_body response) = false ->
  JSON_parse cfg (resp_body response) = Returns (JsonObject f) ->
  (truthy (default VUndefined (f !! "error")) = false \/
   (exists m, f !! "error" = Some (VStr m) /\
              includes (toLowerCase m) "quota" = false) ->
   validateApiKey (VStr key) = invalid "Invalid API key" 401) /\
  (forall m, f !! "error" = Some (VStr m) ->
             includes (toLowerCase m) "quota" = true ->
             validateApiKey (VStr key) = quota_exceeded).
Proof.
  intros Hbase Hurl Hkey Hreq Hs Hbody Hblank Hparse.
  apply String.eqb_neq in Hbase, Hkey, Hbody.
  unfold JaasClient.validateApiKey.
  rewrite Hbase, Hurl. cbn [truthy is_string negb orb].
  rewrite Hkey. cbn [negb]. rewrite Hreq, Hbody, Hblank, Hparse, Hs.
  unfold by_status, member. cbn [Z.eqb Pos.eqb orb].
  split.
  - intros [Hfalsy | (m & Hm & Hq)].
    + rewrite Hfalsy. cbn. reflexivity.
    + rewrite Hm. cbn [default id].
      destruct (truthy (VStr m)); cbv beta iota;
        [now rewrite Hq|reflexivity].
  - intros m Hm Hq. rewrite Hm. cbn [default id].
    destruct (truthy (VStr m)) eqn:Ht; cbv beta iota; [now rewrite Hq|].
    cbn in Ht. apply negb_false_iff, String.eqb_eq in Ht. subst m.
    discriminate Hq.
Qed.

(** X15.  A 200 is not enough.  When the service answers 200 with an
    object whose [valid] is not the boolean [true] (absent, [false],
    the string "true", 1), the result is invalid with status 503 and the
    message of an unavailable service, not a 401. *)
Theorem ok_without_true_is_503 (key : string) (response : HttpResponse)
        (f : gmap string JsValue) :
  JAAS_BASE_URL cfg <> "" -> URL_ok cfg = true -> key <> "" ->
  makeRequest key = inr response -> resp_status response = 200 ->
  resp_body response <> "" -> blank cfg (resp_body response) = false ->
  JSON_parse cfg (resp_body response) = Returns (JsonObject f) ->
  f !! "valid" <> Some (VBool true) ->
  validateApiKey (VStr key)
  = invalid "Authentication service temporarily unavailable" 503.
Proof.
  intros Hbase Hurl Hkey Hreq Hs Hbody Hblank Hparse Hf.
  apply String.eqb_neq in Hbase, Hkey, Hbody.
  unfold JaasClient.validateApiKey.
  rewrite Hbase, Hurl. cbn [truthy is_string negb orb].
  rewrite Hkey. cbn [negb]. rewrite Hreq, Hbody, Hblank, Hparse, Hs.
  unfold by_status, member. cbn [Z.eqb Pos.eqb orb].
  destruct (f !! "valid") as [[| |[|]|n|t|]|]; cbn [default is_true];
    try reflexivity.
  congruence.
Qed.

End JaasFacts.

Lemma valid_iff_200_and_true_witness :
  JaasClient.v_valid
    (JaasClient.validateApiKey jaas_config (jaas_answers 200 "ok")
                               (VStr "key_1")) = true /\
  JaasClient.v_valid
    (JaasClient.validateApiKey jaas_config (jaas_answers 200 "revoked")
                               (VStr "key_1")) = false.
Proof.
  split.
  - apply (valid_iff_200_and_true jaas_config (jaas_answers 200 "ok")).
    split; [discriminate|]. split; [reflexivity|].
    eexists "key_1", _, _. split; [reflexivity|]. split; [discriminate|].
    split; [reflexivity|]. split; [reflexivity|]. split; [discriminate|].
    split; [reflexivity|]. split; reflexivity.
  - destruct (JaasClient.v_valid _) eqn:Hv; [|reflexivity].
    apply (valid_iff_200_and_true jaas_config (jaas_answers 200 "revoked"))
      in Hv.
    destruct Hv as (_ & _ & key & response & f & _ & _ & Hreq & _ & _ & _ &
                    Hparse & Hf).
    inversion Hreq; subst response. cbn in Hparse.
    inversion Hparse; subst f. discriminate Hf.
Defined.


Lemma remote_401_is_generic_witness :
  JaasClient.validateApiKey jaas_config (jaas_answers 401 "revoked")
                            (VStr "key_1")
  = JaasClient.validateApiKey jaas_config (jaas_answers 401 "unknown")
                              (VStr "key_2") /\
  JaasClient.validateApiKey jaas_config (jaas_answers 401 "quota")
                            (VStr "key_1")
  = JaasClient.quota_exceeded.
Proof.
  assert (Hk1 : "key_1" <> "") by discriminate.
  assert (Hk2 : "key_2" <> "") by discriminate.
  assert (Hbase : JaasClient.JAAS_BASE_URL jaas_config <> "") by discriminate.
  assert (Hrev : "revoked" <> "") by discriminate.
  assert (Hunk : "unknown" <> "") by discriminate.
  assert (Hquo : "quota" <> "") by discriminate.
  split.
  - destruct (remote_401_is_generic jaas_config (jaas_answers 401 "revoked")
                "key_1" _ _ Hbase eq_refl Hk1 eq_refl eq_refl Hrev eq_refl
                eq_refl) as (H1 & _).
    destruct (remote_401_is_generic jaas_config (jaas_answers 401 "unknown")
                "key_2" _ _ Hbase eq_refl Hk2 eq_refl eq_refl Hunk eq_refl
                eq_refl) as (H2 & _).
    rewrite H1, H2; [reflexivity| |];
      right; eexists; (split; [reflexivity|reflexivity]).
  - destruct (remote_401_is_generic jaas_config (jaas_answers 401 "quota")
                "key_1" _ _ Hbase eq_refl Hk1 eq_refl eq_refl Hquo eq_refl
                eq_refl) as (_ & H).
    apply (H "Monthly Quota exceeded"); reflexivity.
Defined.

Lemma ok_without_true_is_503_witness :
  JaasClient.validateApiKey jaas_config (jaas_answers 200 "revoked")
                            (VStr "key_1")
  = JaasClient.invalid "Authentication service temporarily unavailable" 503.
Proof.
  assert (Hk1 : "key_1" <> "") by discriminate.
  assert (Hbase : JaasClient.JAAS_BASE_URL jaas_config <> "") by discriminate.
  assert (Hrev : "revoked" <> "") by discriminate.
  apply (ok_without_true_is_503 jaas_config (jaas_answers 200 "revoked")
           "key_1" _ _ Hbase eq_refl Hk1 eq_refl eq_refl Hrev eq_refl eq_refl).
  discriminate.
Defined.
